(** * tsbtreedb/unbalancedDB.py: a single-file, copy-on-write binary search
      tree database.

    The development embeds the Python classes [ValueRef], [BinaryNodeRef],
    [BinaryNode], [BinaryTree], [Storage] and [DBDB] and the function
    [connect], one Rocq module per class, and proves the properties the
    specification states about them.

    Conventions of the embedding.
    - The file on disk is its sequence of bytes.  Every access of [Storage]
      to the file object is preceded by a [seek], so the model passes the
      offset to each access instead of carrying a file position.  Buffering
      ([flush]) is not modelled: a write reaches the bytes at once.
    - Python exceptions are the constructors of [exn]; a call either returns,
      raises, or (in the model only) runs out of the fuel that bounds the
      loops that follow references through the file.
    - [BinaryTree._insert] and [BinaryNodeRef.store] recurse on the Python
      stack.  They take the number of frames the interpreter has left and
      raise [RecursionError] when the recursion needs more: one frame for
      each level of [_insert], three for each unsaved level of [store]
      ([store], [prepare_to_store], [store_refs]).  The frames of the calls
      that do not recurse are not counted, and how many there are depends on
      the interpreter: where the model raises [RecursionError] Python does,
      and where Python returns the model returns the same.
    - A method of a closed file object raises [ValueError], with the message
      of CPython's [io] module.  The limits of the file system (a full disk,
      an offset it refuses) are not modelled: the theorems read and write
      inside the file or at its end.
    - Stateful methods are state-passing functions in the monad [M].
    - [ValueRef.get] caches what it decodes in the reference.  Records are
      written once and never changed, so the cached value is what a second
      read would decode; the model reads again instead of caching.
    - Keys are integers ([Z]); values are text, held as the byte string of
      its UTF-8 encoding: a string of the model that is not valid UTF-8
      stands for no Python value.
    - [pickle] is outside the repository: it is the interface [Pickle]. *)

From Stdlib Require Import Strings.String Strings.Byte.
From Stdlib Require Import List ZArith NArith Lia Bool.
From Stdlib Require Import Sorting.Permutation Sorting.Sorted.
Import ListNotations.

Local Open Scope N_scope.

(** ** Outcomes of a call *)

Inductive exn : Type :=
| KeyError
| ValueError (msg : string)
| AttributeError (obj attr : string)
| UnboundLocalError (name : string)
| struct_error
| UnpicklingError
| RecursionError.

Inductive outcome (A : Type) : Type :=
| Returns (a : A)
| Raises (e : exn)
| OutOfFuel.

Arguments Returns {A} a.
Arguments Raises {A} e.
Arguments OutOfFuel {A}.

Definition obind {A B} (o : outcome A) (k : A -> outcome B) : outcome B :=
  match o with
  | Returns a => k a
  | Raises e => Raises e
  | OutOfFuel => OutOfFuel
  end.

Notation "x <-? c ; k" := (obind c (fun x => k))
  (at level 61, c at next level, right associativity).

(** State and exceptions: the state a call leaves behind is kept when it
    raises, as the mutations of a Python method are. *)
Definition M (S A : Type) : Type := S -> outcome A * S.

Definition ret {S A} (a : A) : M S A := fun s => (Returns a, s).
Definition raise {S A} (e : exn) : M S A := fun s => (Raises e, s).
Definition bind {S A B} (m : M S A) (k : A -> M S B) : M S B :=
  fun s => match m s with
           | (Returns a, s') => k a s'
           | (Raises e, s') => (Raises e, s')
           | (OutOfFuel, s') => (OutOfFuel, s')
           end.
Definition pure_call {S A} (f : S -> outcome A) : M S A := fun s => (f s, s).
Definition modify {S} (f : S -> S) : M S unit := fun s => (Returns tt, f s).

Notation "x <- c ;; k" := (bind c (fun x => k))
  (at level 61, c at next level, right associativity).
Notation "c ;;; k" := (bind c (fun _ => k))
  (at level 61, right associativity).

(** ** The file object and [struct]

    [f.seek(pos); f.read(n)] and [f.seek(pos); f.write(data)] on the bytes of
    the file.  Reading past the end returns what is there; writing past the
    end fills the gap with zero bytes. *)
Module PyFile.

Definition read_at (pos n : N) (contents : list byte) : list byte :=
  firstn (N.to_nat n) (skipn (N.to_nat pos) contents).

Definition write_at (pos : N) (data contents : list byte) : list byte :=
  firstn (N.to_nat pos) contents
    ++ repeat x00 (N.to_nat pos - length contents)
    ++ data
    ++ skipn (N.to_nat pos + length data) contents.

Definition size (contents : list byte) : N := N.of_nat (length contents).

End PyFile.

(** [struct.pack("!Q", n)] and [struct.unpack("!Q", bytes)]: eight bytes,
    most significant first; [struct.error] outside [0, 2^64) and on a buffer
    that is not eight bytes long. *)
Module struct.

Definition byte_of_N (n : N) : byte :=
  match Byte.of_N (n mod 256) with
  | Some b => b
  | None => x00
  end.

Fixpoint big_endian (width : nat) (n : N) : list byte :=
  match width with
  | O => []
  | S w => big_endian w (n / 256) ++ [byte_of_N n]
  end.

Definition from_big_endian (bs : list byte) : N :=
  fold_left (fun acc b => acc * 256 + Byte.to_N b) bs 0.

Definition pack (n : N) : outcome (list byte) :=
  if n <? 2 ^ 64 then Returns (big_endian 8 n) else Raises struct_error.

Definition unpack (bs : list byte) : outcome N :=
  if Nat.eqb (length bs) 8 then Returns (from_big_endian bs)
  else Raises struct_error.

End struct.

(** ** class Storage *)
Module Storage.

Definition SUPERBLOCK_SIZE : N := 4096.
Definition INTEGER_LENGTH : N := 8.

(** [_f] is the content of the underlying file, [f_closed] the [closed]
    flag of the file object. *)
Record t : Type := mk {
  _f : list byte;
  locked : bool;
  f_closed : bool
}.

(** A method of the file object called on a closed file: [seek], [flush]
    and [write], and [fileno] under [portalocker.lock]. *)
Definition file_object (message : string) : M t unit := fun self =>
  if f_closed self
  then (Raises (ValueError message), self)
  else (Returns tt, self).

Definition lock : M t bool := fun self =>
  if negb (locked self)
  then if f_closed self
       then (Raises (ValueError "I/O operation on closed file"), self)
       else (Returns true, mk (_f self) true (f_closed self))
  else (Returns false, self).

(** [close] releases the lock before it closes the file, so no method
    leaves a storage that is locked and closed: the [flush] of [unlock] is
    not checked. *)
Definition unlock : M t unit := fun self =>
  if locked self
  then (Returns tt, mk (_f self) false (f_closed self))
  else (Returns tt, self).

Definition _ensure_superblock : M t unit :=
  lock ;;;
  file_object "seek of closed file" ;;;
  (fun self =>
     let end_address := PyFile.size (_f self) in
     if end_address <? SUPERBLOCK_SIZE
     then (Returns tt,
           mk (PyFile.write_at end_address
                 (repeat x00 (N.to_nat (SUPERBLOCK_SIZE - end_address)))
                 (_f self))
              (locked self) (f_closed self))
     else (Returns tt, self)) ;;;
  unlock.

Definition __init__ (f : list byte) : outcome unit * t :=
  _ensure_superblock (mk f false false).

Definition _bytes_to_integer (integer_bytes : list byte) : outcome N :=
  struct.unpack integer_bytes.

Definition _integer_to_bytes (integer : N) : outcome (list byte) :=
  struct.pack integer.

(** [self._f.seek(pos)] followed by [self._read_integer()]. *)
Definition _read_integer (pos : N) (self : t) : outcome N :=
  if f_closed self
  then Raises (ValueError "seek of closed file")
  else _bytes_to_integer (PyFile.read_at pos INTEGER_LENGTH (_f self)).

(** [self._write_integer(integer)] with the file positioned at [pos]. *)
Definition _write_integer (pos integer : N) : M t unit :=
  lock ;;;
  bs <- pure_call (fun _ => _integer_to_bytes integer) ;;
  file_object "write to closed file" ;;;
  modify (fun self =>
            mk (PyFile.write_at pos bs (_f self)) (locked self) (f_closed self)).

Definition write (data : list byte) : M t N :=
  lock ;;;
  file_object "seek of closed file" ;;;
  (fun self =>
     let object_address := PyFile.size (_f self) in
     (_write_integer object_address (N.of_nat (length data)) ;;;
      modify (fun self =>
                mk (PyFile.write_at (PyFile.size (_f self)) data (_f self))
                   (locked self) (f_closed self)) ;;;
      ret object_address) self).

Definition read (address : N) (self : t) : outcome (list byte) :=
  length <-? _read_integer address self ;
  Returns (PyFile.read_at (address + INTEGER_LENGTH) length (_f self)).

Definition commit_root_address (root_address : N) : M t unit :=
  lock ;;;
  file_object "flush of closed file" ;;;
  _write_integer 0 root_address ;;;
  unlock.

Definition get_root_address (self : t) : outcome N :=
  _read_integer 0 self.

Definition close : M t unit :=
  unlock ;;;
  modify (fun self => mk (_f self) (locked self) true).

Definition closed (self : t) : bool := f_closed self.

End Storage.

(** ** class ValueRef *)
Module ValueRef.

Record t : Type := mk {
  _referent : option string;
  _address : N
}.

Definition address (self : t) : N := _address self.

Definition referent_to_bytes (referent : string) : list byte :=
  list_byte_of_string referent.

Definition bytes_to_referent (bytes : list byte) : string :=
  string_of_list_byte bytes.

Definition get (self : t) (storage : Storage.t) : outcome (option string) :=
  match _referent self with
  | None =>
      if negb (_address self =? 0)
      then bytes <-? Storage.read (_address self) storage ;
           Returns (Some (bytes_to_referent bytes))
      else Returns None
  | Some referent => Returns (Some referent)
  end.

Definition store (self : t) : M Storage.t t :=
  match _referent self with
  | Some referent =>
      if _address self =? 0
      then a <- Storage.write (referent_to_bytes referent) ;;
           ret (mk (Some referent) a)
      else ret self
  | None => ret self
  end.

End ValueRef.

(** ** pickle

    The dictionary [{'left': .., 'key': .., 'value': .., 'right': ..}] that
    [BinaryNodeRef.referent_to_bytes] pickles, and the two functions of the
    library with the one law the database relies on. *)
Record pickled : Type := mk_pickled {
  d_left : N;
  d_key : Z;
  d_value : N;
  d_right : N
}.

Class Pickle : Type := {
  pickle_dumps : pickled -> list byte;
  pickle_loads : list byte -> outcome pickled;
  pickle_loads_dumps : forall d, pickle_loads (pickle_dumps d) = Returns d
}.

(** ** class BinaryNodeRef, class BinaryNode *)
Inductive BinaryNodeRef : Type :=
| mkBinaryNodeRef (_referent : option BinaryNode) (_address : N)
with BinaryNode : Type :=
| mkBinaryNode (left_ref : BinaryNodeRef) (key : Z)
               (value_ref : ValueRef.t) (right_ref : BinaryNodeRef).

Module BinaryNode.

Definition left_ref (self : BinaryNode) : BinaryNodeRef :=
  match self with mkBinaryNode l _ _ _ => l end.
Definition key (self : BinaryNode) : Z :=
  match self with mkBinaryNode _ k _ _ => k end.
Definition value_ref (self : BinaryNode) : ValueRef.t :=
  match self with mkBinaryNode _ _ v _ => v end.
Definition right_ref (self : BinaryNode) : BinaryNodeRef :=
  match self with mkBinaryNode _ _ _ r => r end.

(** [from_node(node, left_ref=..)], [from_node(node, right_ref=..)] and
    [from_node(node, value_ref=..)]: the three ways the tree calls it. *)
Definition from_node (node : BinaryNode)
    (new_left : option BinaryNodeRef) (new_value : option ValueRef.t)
    (new_right : option BinaryNodeRef) : BinaryNode :=
  mkBinaryNode
    (match new_left with Some l => l | None => left_ref node end)
    (key node)
    (match new_value with Some v => v | None => value_ref node end)
    (match new_right with Some r => r | None => right_ref node end).

End BinaryNode.

Module BinaryNodeRef.

Definition _referent (self : BinaryNodeRef) : option BinaryNode :=
  match self with mkBinaryNodeRef r _ => r end.
Definition _address (self : BinaryNodeRef) : N :=
  match self with mkBinaryNodeRef _ a => a end.
Definition address (self : BinaryNodeRef) : N := _address self.

Section WithPickle.
Context `{Pickle}.

Definition referent_to_bytes (referent : BinaryNode) : list byte :=
  pickle_dumps
    {| d_left := address (BinaryNode.left_ref referent);
       d_key := BinaryNode.key referent;
       d_value := ValueRef.address (BinaryNode.value_ref referent);
       d_right := address (BinaryNode.right_ref referent) |}.

Definition bytes_to_referent (string : list byte) : outcome BinaryNode :=
  d <-? pickle_loads string ;
  Returns (mkBinaryNode
             (mkBinaryNodeRef None (d_left d))
             (d_key d)
             (ValueRef.mk None (d_value d))
             (mkBinaryNodeRef None (d_right d))).

Definition get (self : BinaryNodeRef) (storage : Storage.t)
  : outcome (option BinaryNode) :=
  match _referent self with
  | None =>
      if negb (_address self =? 0)
      then bytes <-? Storage.read (_address self) storage ;
           node <-? bytes_to_referent bytes ;
           Returns (Some node)
      else Returns None
  | Some referent => Returns (Some referent)
  end.

(** [store] with [prepare_to_store] and [BinaryNode.store_refs] unfolded into
    it: the three mutually recursive methods walk the in-memory nodes, so the
    recursion is structural.  A reference that holds a node and has no
    address takes three of the [depth] frames that are left, one for each of
    the three methods, before it stores what is below; with fewer left the
    call raises [RecursionError].  The references that were given an address
    are returned, where Python updates them in place. *)
Fixpoint store (depth : nat) (self : BinaryNodeRef)
  : M Storage.t BinaryNodeRef :=
  match self with
  | mkBinaryNodeRef (Some referent) a =>
      if a =? 0
      then match depth with
           | S (S (S depth')) =>
               referent' <- store_refs depth' referent ;;
               a' <- Storage.write (referent_to_bytes referent') ;;
               ret (mkBinaryNodeRef (Some referent') a')
           | _ => raise RecursionError
           end
      else ret self
  | mkBinaryNodeRef None _ => ret self
  end
with store_refs (depth : nat) (node : BinaryNode) : M Storage.t BinaryNode :=
  match node with
  | mkBinaryNode l k v r =>
      v' <- ValueRef.store v ;;
      l' <- store depth l ;;
      r' <- store depth r ;;
      ret (mkBinaryNode l' k v' r')
  end.

End WithPickle.
End BinaryNodeRef.

(** ** class BinaryTree *)
Module BinaryTree.

Record t : Type := mk {
  _storage : Storage.t;
  _tree_ref : BinaryNodeRef
}.

(** A method of the storage called on [self._storage]. *)
Definition on_storage {A} (m : M Storage.t A) : M t A := fun self =>
  let (o, storage) := m (_storage self) in (o, mk storage (_tree_ref self)).

Definition set_tree_ref (ref : BinaryNodeRef) : M t unit :=
  modify (fun self => mk (_storage self) ref).

Section WithPickle.
Context `{Pickle}.

Definition _follow (ref : BinaryNodeRef) (storage : Storage.t)
  : outcome (option BinaryNode) :=
  BinaryNodeRef.get ref storage.

Definition _follow_value (ref : ValueRef.t) (storage : Storage.t)
  : outcome (option string) :=
  ValueRef.get ref storage.

Definition _refresh_tree_ref : M t unit :=
  a <- pure_call (fun self => Storage.get_root_address (_storage self)) ;;
  set_tree_ref (mkBinaryNodeRef None a).

Definition __init__ (storage : Storage.t) : outcome unit * t :=
  _refresh_tree_ref (mk storage (mkBinaryNodeRef None 0)).

(** When [store] raises, the addresses Python had already assigned to
    references below the root are not kept by the model; the bytes written
    are. *)
Definition commit (depth : nat) : M t unit :=
  (fun self =>
     match BinaryNodeRef.store depth (_tree_ref self) (_storage self) with
     | (Returns ref, storage) => (Returns tt, mk storage ref)
     | (Raises e, storage) => (Raises e, mk storage (_tree_ref self))
     | (OutOfFuel, storage) => (OutOfFuel, mk storage (_tree_ref self))
     end) ;;;
  (fun self =>
     on_storage
       (Storage.commit_root_address (BinaryNodeRef.address (_tree_ref self)))
       self).

Definition refresh_unless_locked : M t unit := fun self =>
  if negb (Storage.locked (_storage self))
  then _refresh_tree_ref self
  else (Returns tt, self).

(** The [while node is not None] loop of [get]. *)
Fixpoint get_loop (fuel : nat) (storage : Storage.t)
    (node : option BinaryNode) (key : Z) : outcome (option string) :=
  match node with
  | None => Raises KeyError
  | Some node =>
      match fuel with
      | O => OutOfFuel
      | S fuel' =>
          if (key <? BinaryNode.key node)%Z
          then next <-? _follow (BinaryNode.left_ref node) storage ;
               get_loop fuel' storage next key
          else if (key >? BinaryNode.key node)%Z
          then next <-? _follow (BinaryNode.right_ref node) storage ;
               get_loop fuel' storage next key
          else _follow_value (BinaryNode.value_ref node) storage
      end
  end.

Definition get (fuel : nat) (key : Z) : M t (option string) :=
  refresh_unless_locked ;;;
  pure_call (fun self =>
    node <-? _follow (_tree_ref self) (_storage self) ;
    get_loop fuel (_storage self) node key).

(** [fuel] is the number of frames left: each level of the recursion takes
    one. *)
Fixpoint _insert (fuel : nat) (storage : Storage.t)
    (node : option BinaryNode) (key : Z) (value_ref : ValueRef.t)
  : outcome BinaryNodeRef :=
  match fuel with
  | O => Raises RecursionError
  | S fuel' =>
      new_node <-?
        match node with
        | None =>
            Returns (mkBinaryNode (mkBinaryNodeRef None 0) key value_ref
                                  (mkBinaryNodeRef None 0))
        | Some node =>
            if (key <? BinaryNode.key node)%Z
            then child <-? _follow (BinaryNode.left_ref node) storage ;
                 l <-? _insert fuel' storage child key value_ref ;
                 Returns (BinaryNode.from_node node (Some l) None None)
            else if (key >? BinaryNode.key node)%Z
            then child <-? _follow (BinaryNode.right_ref node) storage ;
                 r <-? _insert fuel' storage child key value_ref ;
                 Returns (BinaryNode.from_node node None None (Some r))
            else Returns (BinaryNode.from_node node None (Some value_ref) None)
        end ;
      Returns (mkBinaryNodeRef (Some new_node) 0)
  end.

Definition set (fuel : nat) (key : Z) (value : string) : M t unit :=
  acquired <- on_storage Storage.lock ;;
  (if acquired : bool then _refresh_tree_ref else ret tt) ;;;
  ref <- pure_call (fun self =>
           node <-? _follow (_tree_ref self) (_storage self) ;
           let value_ref := ValueRef.mk (Some value) 0 in
           _insert fuel (_storage self) node key value_ref) ;;
  set_tree_ref ref.

Fixpoint _find_max (fuel : nat) (storage : Storage.t) (node : BinaryNode)
  : outcome BinaryNode :=
  match fuel with
  | O => OutOfFuel
  | S fuel' =>
      next_node <-? _follow (BinaryNode.right_ref node) storage ;
      match next_node with
      | None => Returns node
      | Some next_node => _find_max fuel' storage next_node
      end
  end.

(** The [while True] loop of [get_min], entered with a node. *)
Fixpoint get_min_loop (fuel : nat) (storage : Storage.t) (node : BinaryNode)
  : outcome (option string) :=
  match fuel with
  | O => OutOfFuel
  | S fuel' =>
      next_node <-? _follow (BinaryNode.left_ref node) storage ;
      match next_node with
      | None => _follow_value (BinaryNode.value_ref node) storage
      | Some next_node => get_min_loop fuel' storage next_node
      end
  end.

(** [node.left_ref] on [None] is the attribute error of the first iteration. *)
Definition get_min (fuel : nat) : M t (option string) :=
  pure_call (fun self =>
    node <-? _follow (_tree_ref self) (_storage self) ;
    match node with
    | None => Raises (AttributeError "NoneType" "left_ref")
    | Some node => get_min_loop fuel (_storage self) node
    end).

(** The loop shared by [get_left] and [get_right]; [side] is the reference
    the method reads on the node it finds. *)
Fixpoint child_loop (side : BinaryNode -> BinaryNodeRef) (fuel : nat)
    (storage : Storage.t) (node : option BinaryNode) (key : Z)
  : outcome (Z * option string) :=
  match node with
  | None => Raises KeyError
  | Some node =>
      match fuel with
      | O => OutOfFuel
      | S fuel' =>
          if (key <? BinaryNode.key node)%Z
          then next <-? _follow (BinaryNode.left_ref node) storage ;
               child_loop side fuel' storage next key
          else if (key >? BinaryNode.key node)%Z
          then next <-? _follow (BinaryNode.right_ref node) storage ;
               child_loop side fuel' storage next key
          else
            child <-? _follow (side node) storage ;
            match child with
            | None => Raises (AttributeError "NoneType" "key")
            | Some child =>
                value <-? _follow_value (BinaryNode.value_ref child) storage ;
                Returns (BinaryNode.key child, value)
            end
      end
  end.

Definition get_left (fuel : nat) (key : Z) : M t (Z * option string) :=
  refresh_unless_locked ;;;
  pure_call (fun self =>
    node <-? _follow (_tree_ref self) (_storage self) ;
    child_loop BinaryNode.left_ref fuel (_storage self) node key).

Definition get_right (fuel : nat) (key : Z) : M t (Z * option string) :=
  refresh_unless_locked ;;;
  pure_call (fun self =>
    node <-? _follow (_tree_ref self) (_storage self) ;
    child_loop BinaryNode.right_ref fuel (_storage self) node key).

(** [traverse_enclosed] appends to [out_global]; the model returns what one
    call appends. *)
Fixpoint traverse_in_order (fuel : nat) (storage : Storage.t)
    (node : option BinaryNode) : outcome (list (Z * option string)) :=
  match node with
  | None => Returns []
  | Some node =>
      match fuel with
      | O => OutOfFuel
      | S fuel' =>
          l <-? _follow (BinaryNode.left_ref node) storage ;
          before <-? traverse_in_order fuel' storage l ;
          value <-? _follow_value (BinaryNode.value_ref node) storage ;
          r <-? _follow (BinaryNode.right_ref node) storage ;
          after <-? traverse_in_order fuel' storage r ;
          Returns (before ++ (BinaryNode.key node, value) :: after)
      end
  end.

(** The [while] loop of [chop]: [parent_node] is [None] as long as the local
    variable is unbound. *)
Fixpoint chop_descend (fuel : nat) (storage : Storage.t) (chop_key : Z)
    (node parent_node : option BinaryNode) (nodes_to_expand : list BinaryNode)
  : outcome (option BinaryNode * list BinaryNode) :=
  match node with
  | None => Returns (parent_node, nodes_to_expand)
  | Some node =>
      match fuel with
      | O => OutOfFuel
      | S fuel' =>
          let parent_node := Some node in
          if (chop_key <? BinaryNode.key node)%Z
          then next <-? _follow (BinaryNode.left_ref node) storage ;
               chop_descend fuel' storage chop_key next parent_node
                            nodes_to_expand
          else if (chop_key >? BinaryNode.key node)%Z
          then right <-? _follow (BinaryNode.right_ref node) storage ;
               let nodes_to_expand :=
                 match right with
                 | Some _ => nodes_to_expand ++ [node]
                 | None => nodes_to_expand
                 end in
               next <-? _follow (BinaryNode.right_ref node) storage ;
               chop_descend fuel' storage chop_key next parent_node
                            nodes_to_expand
          else chop_descend fuel' storage chop_key None parent_node
                            nodes_to_expand
      end
  end.

(** The [for node in nodes_to_expand] loop of [chop]. *)
Fixpoint chop_collect (fuel : nat) (storage : Storage.t) (chop_key : Z)
    (nodes_to_expand : list BinaryNode) (out : list (Z * option string))
  : outcome (list (Z * option string)) :=
  match nodes_to_expand with
  | [] => Returns out
  | node :: rest =>
      out <-? (if (BinaryNode.key node <=? chop_key)%Z
               then value <-? _follow_value (BinaryNode.value_ref node) storage ;
                    Returns (out ++ [(BinaryNode.key node, value)])
               else Returns out) ;
      l <-? _follow (BinaryNode.left_ref node) storage ;
      below <-? traverse_in_order fuel storage l ;
      chop_collect fuel storage chop_key rest (out ++ below)
  end.

Definition chop (fuel : nat) (chop_key : Z) : M t (list (Z * option string)) :=
  refresh_unless_locked ;;;
  pure_call (fun self =>
    let storage := _storage self in
    node <-? _follow (_tree_ref self) storage ;
    found <-? chop_descend fuel storage chop_key node None [] ;
    let (parent_node, nodes_to_expand) :=
      found : option BinaryNode * list BinaryNode in
    match parent_node with
    | None => Raises (UnboundLocalError "parent_node")
    | Some parent_node =>
        chop_collect fuel storage chop_key
                     (nodes_to_expand ++ [parent_node]) []
    end).

End WithPickle.
End BinaryTree.

(** ** class DBDB

    [self._storage] and [self._tree._storage] are one object: the record
    holds the tree and reads the storage through it. *)
Module DBDB.

Record t : Type := mk {
  _tree : BinaryTree.t
}.

Definition _storage (self : t) : Storage.t := BinaryTree._storage (_tree self).

Definition on_tree {A} (m : M BinaryTree.t A) : M t A := fun self =>
  let (o, tree) := m (_tree self) in (o, mk tree).

Definition _assert_not_closed : M t unit := fun self =>
  if Storage.closed (_storage self)
  then (Raises (ValueError "Database closed."), self)
  else (Returns tt, self).

Definition close : M t unit :=
  on_tree (BinaryTree.on_storage Storage.close).

(** [BinaryTree] has no method [delete] (its definition is commented out):
    the attribute lookup [self._tree.delete] raises. *)
Definition delete (key : Z) : M t unit :=
  _assert_not_closed ;;;
  raise (AttributeError "BinaryTree" "delete").

Section WithPickle.
Context `{Pickle}.

Definition __init__ (f : list byte) : outcome t :=
  let (_, storage) := Storage.__init__ f in
  match BinaryTree.__init__ storage with
  | (Returns _, tree) => Returns (mk tree)
  | (Raises e, _) => Raises e
  | (OutOfFuel, _) => OutOfFuel
  end.

Definition commit (depth : nat) : M t unit :=
  _assert_not_closed ;;; on_tree (BinaryTree.commit depth).

Definition get (fuel : nat) (key : Z) : M t (option string) :=
  _assert_not_closed ;;; on_tree (BinaryTree.get fuel key).

Definition set (fuel : nat) (key : Z) (value : string) : M t unit :=
  _assert_not_closed ;;; on_tree (BinaryTree.set fuel key value).

Definition get_min (fuel : nat) : M t (option string) :=
  _assert_not_closed ;;; on_tree (BinaryTree.get_min fuel).

Definition get_left (fuel : nat) (key : Z) : M t (Z * option string) :=
  _assert_not_closed ;;; on_tree (BinaryTree.get_left fuel key).

Definition get_right (fuel : nat) (key : Z) : M t (Z * option string) :=
  _assert_not_closed ;;; on_tree (BinaryTree.get_right fuel key).

Definition chop (fuel : nat) (chop_key : Z)
  : M t (list (Z * option string)) :=
  _assert_not_closed ;;; on_tree (BinaryTree.chop fuel chop_key).

End WithPickle.
End DBDB.

(** [connect(dbname)]: [f] is the content of the file of that name, empty
    when [os.open] has just created it. *)
Definition connect `{Pickle} (f : list byte) : outcome DBDB.t :=
  DBDB.__init__ f.

(** What is on disk under the name of an open or closed database. *)
Definition file_of (db : DBDB.t) : list byte := Storage._f (DBDB._storage db).

(** ** A concrete pickle

    Any codec with [pickle_loads_dumps] will do to run the database; this one
    writes each number bit by bit.  It is what the examples below run on. *)
Module BitPickle.

Fixpoint enc_pos (p : positive) : list byte :=
  match p with
  | xH => [x01]
  | xO q => x02 :: enc_pos q
  | xI q => x03 :: enc_pos q
  end.

Fixpoint dec_pos (bs : list byte) : option (positive * list byte) :=
  match bs with
  | x01 :: rest => Some (xH, rest)
  | x02 :: rest =>
      match dec_pos rest with
      | Some (q, rest') => Some (xO q, rest')
      | None => None
      end
  | x03 :: rest =>
      match dec_pos rest with
      | Some (q, rest') => Some (xI q, rest')
      | None => None
      end
  | _ => None
  end.

Definition enc_N (n : N) : list byte :=
  match n with
  | N0 => [x00]
  | Npos p => enc_pos p
  end.

Definition dec_N (bs : list byte) : option (N * list byte) :=
  match bs with
  | x00 :: rest => Some (N0, rest)
  | _ => match dec_pos bs with
         | Some (p, rest) => Some (Npos p, rest)
         | None => None
         end
  end.

Definition enc_Z (z : Z) : list byte :=
  match z with
  | Z0 => [x00]
  | Zpos p => x01 :: enc_pos p
  | Zneg p => x02 :: enc_pos p
  end.

Definition dec_Z (bs : list byte) : option (Z * list byte) :=
  match bs with
  | x00 :: rest => Some (Z0, rest)
  | x01 :: rest =>
      match dec_pos rest with
      | Some (p, rest') => Some (Zpos p, rest')
      | None => None
      end
  | x02 :: rest =>
      match dec_pos rest with
      | Some (p, rest') => Some (Zneg p, rest')
      | None => None
      end
  | _ => None
  end.

Definition dumps (d : pickled) : list byte :=
  enc_N (d_left d) ++ enc_Z (d_key d) ++ enc_N (d_value d) ++ enc_N (d_right d).

Definition loads (bs : list byte) : outcome pickled :=
  match dec_N bs with
  | Some (l, bs1) =>
      match dec_Z bs1 with
      | Some (k, bs2) =>
          match dec_N bs2 with
          | Some (v, bs3) =>
              match dec_N bs3 with
              | Some (r, []) => Returns (mk_pickled l k v r)
              | _ => Raises UnpicklingError
              end
          | None => Raises UnpicklingError
          end
      | None => Raises UnpicklingError
      end
  | None => Raises UnpicklingError
  end.

End BitPickle.

(** * The in-memory view: trees

    What a reference stands for once everything below it is resolved.  The
    functions on [tree] are the textbook ones; the lemmas of the next part
    show that the methods of [BinaryTree] compute them through the file. *)
Inductive tree : Type :=
| Leaf
| Node (l : tree) (k : Z) (v : string) (r : tree).

Fixpoint height (t : tree) : nat :=
  match t with
  | Leaf => O
  | Node l _ _ r => S (Nat.max (height l) (height r))
  end.

Fixpoint insert (t : tree) (key : Z) (value : string) : tree :=
  match t with
  | Leaf => Node Leaf key value Leaf
  | Node l k v r =>
      if (key <? k)%Z then Node (insert l key value) k v r
      else if (key >? k)%Z then Node l k v (insert r key value)
      else Node l k value r
  end.

Fixpoint lookup (t : tree) (key : Z) : option string :=
  match t with
  | Leaf => None
  | Node l k v r =>
      if (key <? k)%Z then lookup l key
      else if (key >? k)%Z then lookup r key
      else Some v
  end.

(** The two subtrees of the node a descent for [key] stops at. *)
Fixpoint children (t : tree) (key : Z) : option (tree * tree) :=
  match t with
  | Leaf => None
  | Node l k v r =>
      if (key <? k)%Z then children l key
      else if (key >? k)%Z then children r key
      else Some (l, r)
  end.

Fixpoint inorder (t : tree) : list (Z * string) :=
  match t with
  | Leaf => []
  | Node l k v r => inorder l ++ (k, v) :: inorder r
  end.

Fixpoint leftmost (t : tree) : option string :=
  match t with
  | Leaf => None
  | Node Leaf _ v _ => Some v
  | Node l _ _ _ => leftmost l
  end.

Definition root_entry (t : tree) : option (Z * string) :=
  match t with
  | Leaf => None
  | Node _ k v _ => Some (k, v)
  end.

(** Every key of [t] satisfies [P]. *)
Fixpoint all_keys (P : Z -> Prop) (t : tree) : Prop :=
  match t with
  | Leaf => True
  | Node l k _ r => P k /\ all_keys P l /\ all_keys P r
  end.

(** The ordering invariant: at every node the keys on the left are smaller
    and the keys on the right are greater. *)
Fixpoint bst (t : tree) : Prop :=
  match t with
  | Leaf => True
  | Node l k _ r =>
      all_keys (fun x => (x < k)%Z) l /\ all_keys (fun x => (k < x)%Z) r
      /\ bst l /\ bst r
  end.

(** The value the last [set] of [key] in a sequence of calls gave it. *)
Definition last_set (calls : list (Z * string)) (key : Z) : option string :=
  fold_left (fun acc kv => if (fst kv =? key)%Z then Some (snd kv) else acc)
            calls None.

Definition insert_all (t : tree) (calls : list (Z * string)) : tree :=
  fold_left (fun t kv => insert t (fst kv) (snd kv)) calls t.


(** A run of [db.set] calls; it stops at the first that does not return. *)
Fixpoint set_all `{Pickle} (fuel : nat) (calls : list (Z * string))
  : M DBDB.t unit :=
  match calls with
  | [] => ret tt
  | (k, v) :: rest => DBDB.set fuel k v ;;; set_all fuel rest
  end.

(** * How the file holds a tree *)

(** The record with payload [d] lies at address [a] of the file [F]. *)
Definition record_at (F : list byte) (a : N) (d : list byte) : Prop :=
  exists pre post,
    F = pre ++ struct.big_endian 8 (N.of_nat (length d)) ++ d ++ post
    /\ N.of_nat (length pre) = a
    /\ 8 <= a
    /\ N.of_nat (length d) < 2 ^ 64.

(** Every record of [F] is a record of [F'], at the same address. *)
Definition extends (F F' : list byte) : Prop :=
  (length F <= length F')%nat /\
  forall a d, record_at F a d -> record_at F' a d.

Section Representation.
Context `{Pickle}.

Inductive value_at (F : list byte) : ValueRef.t -> string -> Prop :=
| value_dirty v :
    value_at F (ValueRef.mk (Some v) 0) v
| value_cached v a :
    a <> 0 -> record_at F a (ValueRef.referent_to_bytes v) ->
    value_at F (ValueRef.mk (Some v) a) v
| value_disk v a :
    a <> 0 -> record_at F a (ValueRef.referent_to_bytes v) ->
    value_at F (ValueRef.mk None a) v.

(** [repr F ref t]: following [ref], through memory and through the file
    [F], one reads the tree [t]. *)
Inductive repr (F : list byte) : BinaryNodeRef -> tree -> Prop :=
| repr_null :
    repr F (mkBinaryNodeRef None 0) Leaf
| repr_disk a d l v r :
    a <> 0 -> record_at F a (pickle_dumps d) ->
    repr F (mkBinaryNodeRef None (d_left d)) l ->
    value_at F (ValueRef.mk None (d_value d)) v ->
    repr F (mkBinaryNodeRef None (d_right d)) r ->
    repr F (mkBinaryNodeRef None a) (Node l (d_key d) v r)
| repr_dirty lr k vr rr l v r :
    repr F lr l -> value_at F vr v -> repr F rr r ->
    repr F (mkBinaryNodeRef (Some (mkBinaryNode lr k vr rr)) 0) (Node l k v r)
| repr_cached a lr k vr rr l v r :
    a <> 0 ->
    repr F (mkBinaryNodeRef None a) (Node l k v r) ->
    repr F lr l -> value_at F vr v -> repr F rr r ->
    repr F (mkBinaryNodeRef (Some (mkBinaryNode lr k vr rr)) a) (Node l k v r).

(** The node [_follow] returns, against the tree its reference stands for. *)
Inductive node_repr (F : list byte) : option BinaryNode -> tree -> Prop :=
| node_none : node_repr F None Leaf
| node_some lr k vr rr l v r :
    repr F lr l -> value_at F vr v -> repr F rr r ->
    node_repr F (Some (mkBinaryNode lr k vr rr)) (Node l k v r).

(** The tree an open database works on. *)
Definition holds (db : DBDB.t) (t : tree) : Prop :=
  repr (file_of db) (BinaryTree._tree_ref (DBDB._tree db)) t.

(** The tree the root address of the file points to. *)
Definition committed (F : list byte) (t : tree) : Prop :=
  exists a, Storage.get_root_address (Storage.mk F false false) = Returns a
            /\ repr F (mkBinaryNodeRef None a) t.

(** The states of a database handle: connected to a file that did not exist,
    then any calls of the facade, whatever their outcome, and closing and
    connecting again. *)
Inductive reachable : DBDB.t -> Prop :=
| reach_new db :
    connect [] = Returns db -> reachable db
| reach_set db fuel k v :
    reachable db -> reachable (snd (DBDB.set fuel k v db))
| reach_commit db depth :
    reachable db -> reachable (snd (DBDB.commit depth db))
| reach_get db fuel k :
    reachable db -> reachable (snd (DBDB.get fuel k db))
| reach_get_min db fuel :
    reachable db -> reachable (snd (DBDB.get_min fuel db))
| reach_get_left db fuel k :
    reachable db -> reachable (snd (DBDB.get_left fuel k db))
| reach_get_right db fuel k :
    reachable db -> reachable (snd (DBDB.get_right fuel k db))
| reach_chop db fuel k :
    reachable db -> reachable (snd (DBDB.chop fuel k db))
| reach_delete db k :
    reachable db -> reachable (snd (DBDB.delete k db))
| reach_reopen db db' :
    reachable db ->
    connect (file_of (snd (DBDB.close db))) = Returns db' ->
    reachable db'.

End Representation.

(** * What the methods compute, on trees *)

(** What [traverse_in_order] lists for a tree. *)
Definition entries (t : tree) : list (Z * option string) :=
  map (fun kv => (fst kv, Some (snd kv))) (inorder t).

Definition found (o : option string) : outcome (option string) :=
  match o with
  | Some v => Returns (Some v)
  | None => Raises KeyError
  end.

(** What [get_left] and [get_right] answer for a tree, [pick] choosing the
    side. *)
Definition child_outcome (pick : tree * tree -> tree) (t : tree) (key : Z)
  : outcome (Z * option string) :=
  match children t key with
  | None => Raises KeyError
  | Some lr =>
      match root_entry (pick lr) with
      | None => Raises (AttributeError "NoneType" "key")
      | Some (k, v) => Returns (k, Some v)
      end
  end.

(** [chop_path] lists, in the order of [nodes_to_expand] with [parent_node]
    appended, the subtrees whose roots the loop of [chop] retains; [expand]
    is what the second loop adds for one of them. *)
Fixpoint chop_path (t : tree) (chop_key : Z) : list tree :=
  match t with
  | Leaf => []
  | Node l k v r =>
      if (chop_key <? k)%Z
      then match l with Leaf => [t] | _ => chop_path l chop_key end
      else if (chop_key >? k)%Z
      then match r with Leaf => [t] | _ => t :: chop_path r chop_key end
      else [t]
  end.

Definition expand (chop_key : Z) (t : tree) : list (Z * option string) :=
  match t with
  | Leaf => []
  | Node l k v r =>
      (if (k <=? chop_key)%Z then [(k, Some v)] else []) ++ entries l
  end.

Definition chop_result (t : tree) (chop_key : Z) : list (Z * option string) :=
  flat_map (expand chop_key) (chop_path t chop_key).

Definition at_most (chop_key : Z) (e : Z * option string) : bool :=
  (fst e <=? chop_key)%Z.



Section Invariants.
Context `{Pickle}.

(** A record too long for the eight bytes of its length prefix. *)
Definition too_long (data : list byte) : Prop :=
  2 ^ 64 <= N.of_nat (length data).

(** The state [store] leaves on an open file: the file has grown by [X]
    and the lock is held if it was or if something was written; when the
    call returns, the reference it returns stands for the same tree, and so
    does its address alone; it raises [struct.error], for a record that is
    too long, holding the lock, or [RecursionError]. *)
Definition stored_value (F : list byte) (lk : bool) (v : string)
    (res : outcome ValueRef.t * Storage.t) : Prop :=
  exists X lk',
    snd res = Storage.mk (F ++ X) lk' false /\
    (lk' = true \/ lk' = lk) /\
    match fst res with
    | Returns vr' =>
        value_at (F ++ X) vr' v
        /\ value_at (F ++ X) (ValueRef.mk None (ValueRef.address vr')) v
    | Raises e =>
        e = struct_error /\ lk' = true
        /\ too_long (ValueRef.referent_to_bytes v)
    | OutOfFuel => False
    end.

Definition stored_node (F : list byte) (lk : bool) (t : tree)
    (res : outcome BinaryNodeRef * Storage.t) : Prop :=
  exists X lk',
    snd res = Storage.mk (F ++ X) lk' false /\
    (lk' = true \/ lk' = lk) /\
    match fst res with
    | Returns ref' =>
        repr (F ++ X) ref' t
        /\ repr (F ++ X) (mkBinaryNodeRef None (BinaryNodeRef.address ref')) t
    | Raises e => (e = struct_error /\ lk' = true) \/ e = RecursionError
    | OutOfFuel => False
    end.

(** [tc] is the committed tree, [tm] the tree the handle works on; without
    the lock they are the same tree. *)
Definition inv (db : DBDB.t) (tc tm : tree) : Prop :=
  Storage.f_closed (DBDB._storage db) = false
  /\ Storage.SUPERBLOCK_SIZE <= PyFile.size (file_of db)
  /\ committed (file_of db) tc
  /\ holds db tm
  /\ (Storage.locked (DBDB._storage db) = false -> tm = tc)
  /\ bst tc /\ bst tm.

(** The part of [BinaryTree.set] after the lock is taken. *)
Definition set_body (fuel : nat) (key : Z) (value : string)
  : M BinaryTree.t unit :=
  ref <- pure_call (fun self =>
           node <-? BinaryTree._follow (BinaryTree._tree_ref self)
                                       (BinaryTree._storage self) ;
           let value_ref := ValueRef.mk (Some value) 0 in
           BinaryTree._insert fuel (BinaryTree._storage self) node key
                              value_ref) ;;
  BinaryTree.set_tree_ref ref.

(** The root of the working tree, read as [traverse_in_order] is called on
    it. *)
Definition traverse_root (fuel : nat) (db : DBDB.t)
  : outcome (list (Z * option string)) :=
  node <-? BinaryTree._follow (BinaryTree._tree_ref (DBDB._tree db))
                              (DBDB._storage db) ;
  BinaryTree.traverse_in_order fuel (DBDB._storage db) node.

(** ** The runs of the test block of the module

    [new_db] is the handle [connect] returns for a file it has just
    created; [test4_calls] and [test5_calls] are the [set] calls of the two
    examples of the [__main__] block; [committed_run] makes the calls on a
    new database, commits, closes and connects again, with [fuel] frames
    for each [set] and for the [commit]. *)
Definition new_db : DBDB.t :=
  DBDB.mk (BinaryTree.mk (Storage.mk (repeat x00 4096) false false)
                         (mkBinaryNodeRef None 0)).

Definition test4_calls : list (Z * string) :=
  [(16, "big"%string); (15, "med"%string); (14, "sml"%string)]%Z.

Definition test5_calls : list (Z * string) :=
  [(8, "eight"%string); (3, "three"%string); (10, "ten"%string);
   (1, "one"%string); (6, "six"%string); (14, "fourteen"%string);
   (4, "four"%string); (7, "seven"%string); (13, "thirteen"%string)]%Z.

Definition after_calls (fuel : nat) (calls : list (Z * string)) : DBDB.t :=
  snd (set_all fuel calls new_db).

Definition committed_run (fuel : nat) (calls : list (Z * string))
  : outcome DBDB.t :=
  connect (file_of (snd (DBDB.close
                           (snd (DBDB.commit fuel
                                             (after_calls fuel calls)))))).

(** The [set] calls of the keys 1 to [n], in that order, each with the
    value ['v']. *)
Definition increasing (n : nat) : list (Z * string) :=
  map (fun k => (Z.of_nat k, "v"%string)) (seq 1 n).

(** The handle of a run, [new_db] if the run did not return one. *)
Definition handle (o : outcome DBDB.t) : DBDB.t :=
  match o with
  | Returns db => db
  | _ => new_db
  end.

(** [st'] is [st] with bytes appended to the file: nothing that was in
    the file has changed, and the file object is open or closed as it
    was. *)
Definition appends (st st' : Storage.t) : Prop :=
  exists X,
    Storage._f st' = Storage._f st ++ X
    /\ Storage.f_closed st' = Storage.f_closed st.

(** A handle that does not hold the lock has nothing to write: its root
    reference carries the root address of the file and is either unresolved
    or already stored. *)
Definition published (db : DBDB.t) : Prop :=
  Storage.locked (DBDB._storage db) = false ->
  Storage.get_root_address (DBDB._storage db)
  = Returns (BinaryNodeRef.address (BinaryTree._tree_ref (DBDB._tree db)))
  /\ (BinaryNodeRef._referent (BinaryTree._tree_ref (DBDB._tree db)) = None
      \/ BinaryNodeRef.address (BinaryTree._tree_ref (DBDB._tree db)) <> 0).

End Invariants.

(** * Facts about the storage layer *)

Ltac monad_unfold :=
  unfold bind, ret, raise, pure_call, modify in *.

Lemma to_N_byte_of_N n : Byte.to_N (struct.byte_of_N n) = n mod 256.
Proof.
  unfold struct.byte_of_N.
  destruct (Byte.of_N (n mod 256)) as [b | ] eqn:E.
  - now apply Byte.to_of_N in E.
  - apply Byte.of_N_None_iff in E.
    pose proof (N.mod_upper_bound n 256). lia.
Qed.

Lemma big_endian_length w n : length (struct.big_endian w n) = w.
Proof.
  revert n. induction w as [ | w IH]; intros n; simpl; [reflexivity | ].
  rewrite length_app, IH. simpl. lia.
Qed.

Lemma from_big_endian_snoc l b :
  struct.from_big_endian (l ++ [b])
  = struct.from_big_endian l * 256 + Byte.to_N b.
Proof.
  unfold struct.from_big_endian. now rewrite fold_left_app.
Qed.

Lemma from_big_endian_big_endian w n :
  n < 256 ^ N.of_nat w ->
  struct.from_big_endian (struct.big_endian w n) = n.
Proof.
  revert n. induction w as [ | w IH]; intros n Hn.
  - simpl in *. change (256 ^ 0) with 1 in Hn.
    unfold struct.from_big_endian. simpl. lia.
  - simpl struct.big_endian. rewrite from_big_endian_snoc, to_N_byte_of_N.
    rewrite IH.
    + pose proof (N.div_mod n 256). lia.
    + rewrite Nat2N.inj_succ, N.pow_succ_r' in Hn.
      apply N.Div0.div_lt_upper_bound. lia.
Qed.

Lemma unpack_pack n bs :
  struct.pack n = Returns bs -> struct.unpack bs = Returns n.
Proof.
  unfold struct.pack, struct.unpack.
  destruct (n <? 2 ^ 64) eqn:E; [ | discriminate].
  intros Hp. assert (bs = struct.big_endian 8 n) as -> by congruence.
  rewrite big_endian_length. simpl Nat.eqb. cbv iota.
  f_equal. apply from_big_endian_big_endian.
  apply N.ltb_lt in E. exact E.
Qed.

Lemma pack_returns n :
  n < 2 ^ 64 -> struct.pack n = Returns (struct.big_endian 8 n).
Proof.
  intros Hn. unfold struct.pack.
  apply N.ltb_lt in Hn. now rewrite Hn.
Qed.

Lemma pack_raises n :
  2 ^ 64 <= n -> struct.pack n = Raises struct_error.
Proof.
  intros Hn. unfold struct.pack.
  apply N.ltb_ge in Hn. now rewrite Hn.
Qed.

Lemma write_at_end data F :
  PyFile.write_at (PyFile.size F) data F = F ++ data.
Proof.
  unfold PyFile.write_at, PyFile.size. rewrite Nat2N.id.
  rewrite firstn_all, Nat.sub_diag, skipn_all2 by lia.
  simpl. now rewrite app_nil_r.
Qed.

Lemma size_app F G : PyFile.size (F ++ G) = PyFile.size F + PyFile.size G.
Proof. unfold PyFile.size. rewrite length_app. lia. Qed.

Lemma read_at_split pre d post :
  PyFile.read_at (N.of_nat (length pre)) (N.of_nat (length d))
                 (pre ++ d ++ post) = d.
Proof.
  unfold PyFile.read_at. rewrite !Nat2N.id.
  rewrite skipn_app, skipn_all, Nat.sub_diag. simpl.
  rewrite firstn_app, firstn_all, Nat.sub_diag. simpl.
  now rewrite app_nil_r.
Qed.

Lemma read_record F a d lk :
  record_at F a d -> Storage.read a (Storage.mk F lk false) = Returns d.
Proof.
  intros (pre & post & -> & <- & _ & Hd).
  unfold Storage.read, Storage._read_integer, Storage._bytes_to_integer.
  cbn [Storage._f Storage.f_closed].
  replace Storage.INTEGER_LENGTH
    with (N.of_nat (length (struct.big_endian 8 (N.of_nat (length d)))))
    by (now rewrite big_endian_length).
  rewrite read_at_split.
  rewrite (unpack_pack _ _ (pack_returns _ Hd)). cbn [obind].
  f_equal.
  replace (N.of_nat (length pre)
           + N.of_nat (length (struct.big_endian 8 (N.of_nat (length d)))))
    with (N.of_nat (length (pre ++ struct.big_endian 8 (N.of_nat (length d)))))
    by (rewrite length_app; lia).
  rewrite <- (app_nil_l post) at 1.
  rewrite (app_assoc pre), <- (app_nil_l post).
  replace (d ++ [] ++ post) with (d ++ post) by reflexivity.
  apply read_at_split.
Qed.

Lemma record_at_app F X a d : record_at F a d -> record_at (F ++ X) a d.
Proof.
  intros (pre & post & -> & Ha & H8 & Hd).
  exists pre, (post ++ X). repeat split; try assumption.
  now rewrite <- !app_assoc.
Qed.

Lemma record_at_root F hdr a d :
  length hdr = 8%nat ->
  record_at F a d -> record_at (hdr ++ skipn 8 F) a d.
Proof.
  intros Hh (pre & post & -> & Ha & H8 & Hd).
  exists (hdr ++ skipn 8 pre), post. repeat split; try assumption.
  - rewrite skipn_app.
    replace (8 - length pre)%nat with 0%nat by lia.
    simpl. now rewrite <- app_assoc.
  - rewrite length_app, length_skipn. lia.
Qed.

Lemma record_at_end F d :
  8 <= PyFile.size F -> N.of_nat (length d) < 2 ^ 64 ->
  record_at (F ++ struct.big_endian 8 (N.of_nat (length d)) ++ d)
            (PyFile.size F) d.
Proof.
  intros H8 Hd. exists F, []. repeat split; try assumption.
  now rewrite app_nil_r.
Qed.

Lemma record_at_inj F a d1 d2 : record_at F a d1 -> record_at F a d2 -> d1 = d2.
Proof.
  intros H1 H2.
  apply (read_record _ _ _ false) in H1.
  apply (read_record _ _ _ false) in H2.
  congruence.
Qed.

Lemma extends_refl F : extends F F.
Proof. split; [lia | auto]. Qed.

Lemma extends_trans F G K : extends F G -> extends G K -> extends F K.
Proof. intros [L1 R1] [L2 R2]. split; [lia | auto]. Qed.

Lemma extends_app F X : extends F (F ++ X).
Proof.
  split; [rewrite length_app; lia | ].
  intros a d. apply record_at_app.
Qed.

Lemma extends_root F hdr :
  length hdr = 8%nat -> (8 <= length F)%nat -> extends F (hdr ++ skipn 8 F).
Proof.
  intros Hh HF. split.
  - rewrite length_app, length_skipn. lia.
  - intros a d. now apply record_at_root.
Qed.

Lemma write_returns d F lk :
  N.of_nat (length d) < 2 ^ 64 ->
  Storage.write d (Storage.mk F lk false)
  = (Returns (PyFile.size F),
     Storage.mk (F ++ struct.big_endian 8 (N.of_nat (length d)) ++ d)
                true false).
Proof.
  intros Hd.
  unfold Storage.write, Storage._write_integer, Storage._integer_to_bytes,
    Storage.lock, Storage.file_object.
  monad_unfold. rewrite (pack_returns _ Hd).
  destruct lk; cbn -[struct.big_endian PyFile.write_at PyFile.size];
    rewrite !write_at_end, <- app_assoc; reflexivity.
Qed.

Lemma write_raises d F lk :
  2 ^ 64 <= N.of_nat (length d) ->
  Storage.write d (Storage.mk F lk false)
  = (Raises struct_error, Storage.mk F true false).
Proof.
  intros Hd.
  unfold Storage.write, Storage._write_integer, Storage._integer_to_bytes,
    Storage.lock, Storage.file_object.
  monad_unfold. rewrite (pack_raises _ Hd).
  destruct lk; reflexivity.
Qed.

Lemma commit_root_address_returns a F lk :
  a < 2 ^ 64 ->
  Storage.commit_root_address a (Storage.mk F lk false)
  = (Returns tt,
     Storage.mk (struct.big_endian 8 a ++ skipn 8 F) false false).
Proof.
  intros Ha.
  unfold Storage.commit_root_address, Storage._write_integer,
    Storage._integer_to_bytes, Storage.lock, Storage.unlock,
    Storage.file_object.
  monad_unfold. rewrite (pack_returns _ Ha).
  destruct lk; reflexivity.
Qed.

Lemma commit_root_address_raises a F lk :
  2 ^ 64 <= a ->
  Storage.commit_root_address a (Storage.mk F lk false)
  = (Raises struct_error, Storage.mk F true false).
Proof.
  intros Ha.
  unfold Storage.commit_root_address, Storage._write_integer,
    Storage._integer_to_bytes, Storage.lock, Storage.unlock,
    Storage.file_object.
  monad_unfold. rewrite (pack_raises _ Ha).
  destruct lk; reflexivity.
Qed.

Lemma get_root_address_after_commit a X lk :
  a < 2 ^ 64 ->
  Storage.get_root_address (Storage.mk (struct.big_endian 8 a ++ X) lk false)
  = Returns a.
Proof.
  intros Ha.
  unfold Storage.get_root_address, Storage._read_integer,
    Storage._bytes_to_integer, PyFile.read_at.
  cbn [Storage._f Storage.f_closed]. change (N.to_nat 0) with 0%nat. rewrite skipn_O.
  change (N.to_nat Storage.INTEGER_LENGTH) with 8%nat.
  rewrite firstn_app, big_endian_length, Nat.sub_diag, firstn_O, app_nil_r.
  rewrite firstn_all2 by (rewrite big_endian_length; lia).
  apply (unpack_pack _ _ (pack_returns _ Ha)).
Qed.

Lemma get_root_address_lock_free F lk lk' cl :
  Storage.get_root_address (Storage.mk F lk cl)
  = Storage.get_root_address (Storage.mk F lk' cl).
Proof. reflexivity. Qed.

(** A file that has its superblock is left as it is by [Storage.__init__]. *)
Lemma storage_init_keeps F :
  Storage.SUPERBLOCK_SIZE <= PyFile.size F ->
  Storage.__init__ F = (Returns tt, Storage.mk F false false).
Proof.
  intros HF. unfold Storage.__init__, Storage._ensure_superblock, Storage.lock,
    Storage.unlock, Storage.file_object.
  monad_unfold. cbn [Storage.locked Storage._f Storage.f_closed negb].
  apply N.ltb_ge in HF. rewrite HF. reflexivity.
Qed.

Lemma storage_init_size F :
  Storage.SUPERBLOCK_SIZE <= PyFile.size (Storage._f (snd (Storage.__init__ F))).
Proof.
  unfold Storage.__init__, Storage._ensure_superblock, Storage.lock,
    Storage.unlock, Storage.file_object.
  monad_unfold. cbn [Storage.locked Storage._f Storage.f_closed negb].
  destruct (PyFile.size F <? Storage.SUPERBLOCK_SIZE) eqn:E.
  - cbn [snd Storage._f Storage.locked]. rewrite write_at_end.
    rewrite size_app. unfold PyFile.size at 2. rewrite repeat_length.
    apply N.ltb_lt in E. lia.
  - cbn [snd Storage._f Storage.locked]. now apply N.ltb_ge in E.
Qed.

Lemma storage_init_flags F :
  fst (Storage.__init__ F) = Returns tt
  /\ Storage.locked (snd (Storage.__init__ F)) = false
  /\ Storage.f_closed (snd (Storage.__init__ F)) = false.
Proof.
  unfold Storage.__init__, Storage._ensure_superblock, Storage.lock,
    Storage.unlock, Storage.file_object.
  monad_unfold. cbn [Storage.locked Storage._f Storage.f_closed negb].
  destruct (PyFile.size F <? Storage.SUPERBLOCK_SIZE); repeat split.
Qed.

(** * The concrete pickle is a pickle *)

Lemma dec_enc_pos p rest :
  BitPickle.dec_pos (BitPickle.enc_pos p ++ rest) = Some (p, rest).
Proof.
  induction p as [q IH | q IH | ]; simpl; try rewrite IH; reflexivity.
Qed.

Lemma dec_enc_N n rest :
  BitPickle.dec_N (BitPickle.enc_N n ++ rest) = Some (n, rest).
Proof.
  destruct n as [ | p]; [reflexivity | ].
  unfold BitPickle.dec_N, BitPickle.enc_N. rewrite dec_enc_pos.
  destruct p; reflexivity.
Qed.

Lemma dec_enc_Z z rest :
  BitPickle.dec_Z (BitPickle.enc_Z z ++ rest) = Some (z, rest).
Proof.
  destruct z as [ | p | p]; simpl; try rewrite dec_enc_pos; reflexivity.
Qed.

Lemma bit_loads_dumps d : BitPickle.loads (BitPickle.dumps d) = Returns d.
Proof.
  destruct d as [l k v r]. unfold BitPickle.loads, BitPickle.dumps.
  cbn [d_left d_key d_value d_right].
  rewrite dec_enc_N, dec_enc_Z, dec_enc_N.
  rewrite <- (app_nil_r (BitPickle.enc_N r)), dec_enc_N. reflexivity.
Qed.

#[export] Instance bit_pickle : Pickle :=
  {| pickle_dumps := BitPickle.dumps;
     pickle_loads := BitPickle.loads;
     pickle_loads_dumps := bit_loads_dumps |}.

(** * Reading a represented tree through the file *)
Section Reading.
Context `{Pickle}.

Lemma pickle_dumps_inj d1 d2 : pickle_dumps d1 = pickle_dumps d2 -> d1 = d2.
Proof.
  intros E. apply (f_equal pickle_loads) in E.
  rewrite !pickle_loads_dumps in E. congruence.
Qed.

Lemma referent_to_bytes_inj v1 v2 :
  ValueRef.referent_to_bytes v1 = ValueRef.referent_to_bytes v2 -> v1 = v2.
Proof.
  unfold ValueRef.referent_to_bytes. intros E.
  apply (f_equal string_of_list_byte) in E.
  now rewrite !string_of_list_byte_of_string in E.
Qed.

Lemma value_at_extends F F' vr v :
  extends F F' -> value_at F vr v -> value_at F' vr v.
Proof.
  intros [_ E] [ | a ? Ha Hr | a ? Ha Hr]; constructor; auto.
Qed.

Lemma repr_extends F F' ref t :
  extends F F' -> repr F ref t -> repr F' ref t.
Proof.
  intros E R. induction R.
  - constructor.
  - econstructor; eauto using value_at_extends. now apply E.
  - constructor; eauto using value_at_extends.
  - constructor; eauto using value_at_extends.
Qed.

Lemma value_at_inj F vr v1 v2 : value_at F vr v1 -> value_at F vr v2 -> v1 = v2.
Proof.
  intros R1 R2. inversion R1; subst; inversion R2; subst; try congruence.
  eapply referent_to_bytes_inj, record_at_inj; eauto.
Qed.

Lemma repr_inj F ref t1 t2 : repr F ref t1 -> repr F ref t2 -> t1 = t2.
Proof.
  intros R1. revert t2.
  induction R1 as [ | a d l v r Ha Hrec Rl IHl Rv Rr IHr
                    | lr k vr rr l v r Rl IHl Rv Rr IHr
                    | a lr k vr rr l v r Ha Rd IHd Rl IHl Rv Rr IHr ];
    intros t2 R2; inversion R2; subst; try congruence.
  - assert (d0 = d) as ->
        by (eapply pickle_dumps_inj, record_at_inj; eauto).
    f_equal; eauto using value_at_inj.
  - f_equal; eauto using value_at_inj.
  - f_equal; eauto using value_at_inj.
Qed.

Lemma follow_value F lk vr v :
  value_at F vr v ->
  BinaryTree._follow_value vr (Storage.mk F lk false) = Returns (Some v).
Proof.
  intros [ | a ? Ha Hr | a ? Ha Hr];
    unfold BinaryTree._follow_value, ValueRef.get; cbn [ValueRef._referent];
    try reflexivity.
  cbn [ValueRef._address]. apply N.eqb_neq in Ha. rewrite Ha. cbn [negb].
  rewrite (read_record _ _ _ lk Hr). cbn [obind].
  unfold ValueRef.bytes_to_referent, ValueRef.referent_to_bytes.
  now rewrite string_of_list_byte_of_string.
Qed.

Lemma follow_repr F lk ref t :
  repr F ref t ->
  exists node,
    BinaryTree._follow ref (Storage.mk F lk false) = Returns node
    /\ node_repr F node t.
Proof.
  intros R. destruct R as [ | a d l v r Ha Hrec Rl Rv Rr
                            | lr k vr rr l v r Rl Rv Rr
                            | a lr k vr rr l v r Ha Rd Rl Rv Rr ];
    unfold BinaryTree._follow, BinaryNodeRef.get;
    cbn [BinaryNodeRef._referent BinaryNodeRef._address].
  - exists None. split; [reflexivity | constructor].
  - apply N.eqb_neq in Ha. rewrite Ha. cbn [negb].
    rewrite (read_record _ _ _ lk Hrec). cbn [obind].
    unfold BinaryNodeRef.bytes_to_referent.
    rewrite pickle_loads_dumps. cbn [obind].
    eexists. split; [reflexivity | now constructor].
  - eexists. split; [reflexivity | now constructor].
  - eexists. split; [reflexivity | now constructor].
Qed.

End Reading.

(** * The methods of [BinaryTree] on a represented tree *)

Section TreeMethods.
Context `{Pickle}.
Variables (F : list byte) (lk : bool).

Let storage := Storage.mk F lk false.

Ltac follow R node Hfollow Hnode :=
  destruct (follow_repr F lk _ _ R) as (node & Hfollow & Hnode);
  fold storage in Hfollow; rewrite Hfollow; cbn [obind].

Lemma get_loop_spec key t : forall node fuel,
  node_repr F node t -> (height t <= fuel)%nat ->
  BinaryTree.get_loop fuel storage node key = found (lookup t key).
Proof.
  induction t as [ | l IHl k v r IHr]; intros node fuel NR Hfuel;
    inversion NR as [ | lr k' vr rr l' v' r' Rl Rv Rr]; subst.
  - destruct fuel; reflexivity.
  - destruct fuel as [ | fuel]; [simpl in Hfuel; lia | ].
    simpl in Hfuel.
    cbn [BinaryTree.get_loop BinaryNode.key BinaryNode.left_ref
         BinaryNode.right_ref BinaryNode.value_ref lookup].
    destruct (key <? k)%Z.
    + follow Rl n Hf Hn. apply IHl; [assumption | lia].
    + destruct (key >? k)%Z.
      * follow Rr n Hf Hn. apply IHr; [assumption | lia].
      * unfold storage. now rewrite (follow_value F lk _ _ Rv).
Qed.

Lemma insert_outcome key value t : forall node fuel,
  node_repr F node t ->
  match BinaryTree._insert fuel storage node key (ValueRef.mk (Some value) 0)
  with
  | Returns ref => repr F ref (insert t key value)
  | Raises e => e = RecursionError /\ (fuel <= height t)%nat
  | OutOfFuel => False
  end.
Proof.
  induction t as [ | l IHl k v r IHr]; intros node fuel NR;
    inversion NR as [ | lr k' vr rr l' v' r' Rl Rv Rr]; subst;
    (destruct fuel as [ | fuel]; [simpl; split; [reflexivity | lia] | ]).
  - simpl. repeat constructor.
  - cbn [BinaryTree._insert BinaryNode.key BinaryNode.left_ref
         BinaryNode.right_ref BinaryNode.value_ref insert height].
    destruct (key <? k)%Z.
    + follow Rl n Hf Hn. specialize (IHl n fuel Hn).
      destruct (BinaryTree._insert fuel storage n key _) as [ref | e | ];
        cbn [obind];
        [now constructor | split; [apply IHl | lia] | assumption].
    + destruct (key >? k)%Z.
      * follow Rr n Hf Hn. specialize (IHr n fuel Hn).
        destruct (BinaryTree._insert fuel storage n key _) as [ref | e | ];
          cbn [obind];
          [now constructor | split; [apply IHr | lia] | assumption].
      * cbn [obind BinaryNode.from_node BinaryNode.key BinaryNode.left_ref
             BinaryNode.right_ref BinaryNode.value_ref].
        constructor; [assumption | constructor | assumption].
Qed.

Lemma insert_spec key value t node fuel :
  node_repr F node t -> (height t < fuel)%nat ->
  exists ref,
    BinaryTree._insert fuel storage node key (ValueRef.mk (Some value) 0)
    = Returns ref
    /\ repr F ref (insert t key value).
Proof.
  intros NR Hfuel. pose proof (insert_outcome key value t node fuel NR) as O.
  destruct (BinaryTree._insert fuel storage node key _) as [ref | e | ];
    [eauto | lia | contradiction].
Qed.

Lemma child_loop_spec side pick key
    (Hside : forall lr k vr rr l r,
        repr F lr l -> repr F rr r ->
        repr F (side (mkBinaryNode lr k vr rr)) (pick (l, r))) t :
  forall node fuel,
  node_repr F node t -> (height t <= fuel)%nat ->
  BinaryTree.child_loop side fuel storage node key
  = child_outcome pick t key.
Proof.
  unfold child_outcome.
  induction t as [ | l IHl k v r IHr]; intros node fuel NR Hfuel;
    inversion NR as [ | lr k' vr rr l' v' r' Rl Rv Rr]; subst.
  - destruct fuel; reflexivity.
  - destruct fuel as [ | fuel]; [simpl in Hfuel; lia | ].
    simpl in Hfuel.
    cbn [BinaryTree.child_loop BinaryNode.key BinaryNode.left_ref
         BinaryNode.right_ref BinaryNode.value_ref children].
    destruct (key <? k)%Z.
    + follow Rl n Hf Hn. apply IHl; [assumption | lia].
    + destruct (key >? k)%Z.
      * follow Rr n Hf Hn. apply IHr; [assumption | lia].
      * pose proof (Hside lr k vr rr l r Rl Rr) as Rs.
        follow Rs n Hf Hn.
        inversion Hn as [ E1 E2 | clr ck cvr crr cl' cv cr' Cl Cv Cr E1 E2 ];
          [reflexivity | ].
        cbn [root_entry BinaryNode.value_ref BinaryNode.key].
        unfold storage. now rewrite (follow_value F lk _ _ Cv).
Qed.

Lemma get_min_loop_spec t : forall lr k vr rr l v r fuel,
  t = Node l k v r ->
  repr F lr l -> value_at F vr v -> repr F rr r ->
  (height t <= fuel)%nat ->
  BinaryTree.get_min_loop fuel storage (mkBinaryNode lr k vr rr)
  = Returns (leftmost t).
Proof.
  induction t as [ | l0 IHl k0 v0 r0 _];
    intros lr k vr rr l v r fuel E Rl Rv Rr Hfuel; [discriminate | ].
  injection E as -> -> -> ->.
  destruct fuel as [ | fuel]; [simpl in Hfuel; lia | ].
  simpl in Hfuel.
  cbn [BinaryTree.get_min_loop BinaryNode.left_ref BinaryNode.value_ref].
  follow Rl n Hf Hn.
  inversion Hn as [ E1 E2 | clr ck cvr crr cl' cv cr' Cl Cv Cr E1 E2 ]; subst.
  - unfold storage. now rewrite (follow_value F lk _ _ Rv).
  - rewrite (IHl clr ck cvr crr cl' cv cr' fuel eq_refl Cl Cv Cr) by lia.
    reflexivity.
Qed.

Lemma traverse_in_order_spec t : forall node fuel,
  node_repr F node t -> (height t <= fuel)%nat ->
  BinaryTree.traverse_in_order fuel storage node = Returns (entries t).
Proof.
  unfold entries.
  induction t as [ | l IHl k v r IHr]; intros node fuel NR Hfuel;
    inversion NR as [ | lr k' vr rr l' v' r' Rl Rv Rr]; subst.
  - destruct fuel; reflexivity.
  - destruct fuel as [ | fuel]; [simpl in Hfuel; lia | ].
    simpl in Hfuel.
    cbn [BinaryTree.traverse_in_order BinaryNode.key BinaryNode.left_ref
         BinaryNode.right_ref BinaryNode.value_ref inorder].
    follow Rl nl Hfl Hnl. rewrite (IHl nl fuel Hnl) by lia. cbn [obind].
    unfold storage at 1. rewrite (follow_value F lk _ _ Rv). cbn [obind].
    follow Rr nr Hfr Hnr. rewrite (IHr nr fuel Hnr) by lia. cbn [obind].
    now rewrite map_app.
Qed.

End TreeMethods.

(** * [chop] on a tree *)

Lemma all_keys_entries P t :
  all_keys P t -> Forall (fun e => P (fst e)) (entries t).
Proof.
  unfold entries. induction t as [ | l IHl k v r IHr]; simpl.
  - constructor.
  - intros (Hk & Hl & Hr). rewrite map_app. apply Forall_app. split; auto.
    simpl. constructor; auto.
Qed.

Lemma filter_all {A} (f : A -> bool) l :
  Forall (fun x => f x = true) l -> filter f l = l.
Proof.
  induction 1 as [ | x l Hx _ IH]; simpl; [reflexivity | ].
  now rewrite Hx, IH.
Qed.

Lemma filter_none {A} (f : A -> bool) l :
  Forall (fun x => f x = false) l -> filter f l = [].
Proof.
  induction 1 as [ | x l Hx _ IH]; simpl; [reflexivity | ].
  now rewrite Hx, IH.
Qed.

Lemma entries_node l k v r :
  entries (Node l k v r) = entries l ++ (k, Some v) :: entries r.
Proof. unfold entries. simpl. now rewrite map_app. Qed.

Lemma filter_below chop_key k t :
  (k <= chop_key)%Z -> all_keys (fun x => (x < k)%Z) t ->
  filter (at_most chop_key) (entries t) = entries t.
Proof.
  intros Hk Ht. apply filter_all.
  eapply Forall_impl; [ | apply (all_keys_entries _ _ Ht)].
  intros e He. unfold at_most. apply Z.leb_le. simpl in He. lia.
Qed.

Lemma filter_above chop_key k t :
  (chop_key <= k)%Z -> all_keys (fun x => (k < x)%Z) t ->
  filter (at_most chop_key) (entries t) = [].
Proof.
  intros Hk Ht. apply filter_none.
  eapply Forall_impl; [ | apply (all_keys_entries _ _ Ht)].
  intros e He. unfold at_most. apply Z.leb_gt. simpl in He. lia.
Qed.

Lemma chop_path_height chop_key t :
  Forall (fun s => (height s <= height t)%nat) (chop_path t chop_key).
Proof.
  induction t as [ | l IHl k v r IHr]; [constructor | ].
  cbn [chop_path].
  assert (Hl : Forall (fun s => (height s <= height (Node l k v r))%nat)
                      (chop_path l chop_key)).
  { eapply Forall_impl; [ | exact IHl]. simpl. intros; lia. }
  assert (Hr : Forall (fun s => (height s <= height (Node l k v r))%nat)
                      (chop_path r chop_key)).
  { eapply Forall_impl; [ | exact IHr]. simpl. intros; lia. }
  destruct (chop_key <? k)%Z.
  - destruct l; [repeat constructor | exact Hl].
  - destruct (chop_key >? k)%Z.
    + destruct r; repeat constructor; exact Hr.
    + repeat constructor.
Qed.

(** On a search tree the entries [chop] gathers are the entries of the
    tree whose key is at most the threshold, in some order. *)
Lemma chop_result_permutation chop_key t :
  bst t ->
  Permutation (chop_result t chop_key)
              (filter (at_most chop_key) (entries t)).
Proof.
  unfold chop_result.
  induction t as [ | l IHl k v r IHr]; [constructor | ].
  intros (Hlt & Hgt & Bl & Br).
  rewrite entries_node, filter_app. cbn [filter chop_path].
  unfold at_most at 2. cbn [fst].
  destruct (chop_key <? k)%Z eqn:E1.
  - apply Z.ltb_lt in E1.
    assert (E : (k <=? chop_key)%Z = false) by (apply Z.leb_gt; lia).
    rewrite E, (filter_above chop_key k r) by (assumption || lia).
    rewrite app_nil_r.
    destruct l as [ | ll lk lv lr]; [ | now apply IHl].
    cbn [flat_map expand]. rewrite E. reflexivity.
  - apply Z.ltb_ge in E1.
    destruct (chop_key >? k)%Z eqn:E2.
    + apply Z.gtb_lt in E2.
      assert (E : (k <=? chop_key)%Z = true) by (apply Z.leb_le; lia).
      rewrite E, (filter_below chop_key k l) by (assumption || lia).
      destruct r as [ | rl rk rv rr].
      * cbn [flat_map expand entries inorder map filter].
        rewrite E, app_nil_r. apply Permutation_cons_append.
      * cbn [flat_map]. cbn [expand]. rewrite E.
        rewrite <- app_assoc. cbn [app].
        apply Permutation_cons_app, Permutation_app_head, IHr, Br.
    + assert (chop_key = k) as ->.
      { destruct (Z.gtb_spec chop_key k); [discriminate | lia]. }
      assert (E : (k <=? k)%Z = true) by (apply Z.leb_le; lia).
      rewrite E, (filter_below k k l) by (assumption || lia).
      rewrite (filter_above k k r) by (assumption || lia).
      cbn [flat_map expand]. rewrite E, app_nil_r.
      apply Permutation_cons_append.
Qed.

Section Chop.
Context `{Pickle}.
Variables (F : list byte) (lk : bool) (chop_key : Z).

Let storage := Storage.mk F lk false.

Ltac follow R node Hfollow Hnode :=
  destruct (follow_repr F lk _ _ R) as (node & Hfollow & Hnode);
  fold storage in Hfollow; rewrite ?Hfollow; cbn [obind].

Let is_node (n : BinaryNode) (s : tree) : Prop := node_repr F (Some n) s.

Lemma chop_descend_spec t : forall node fuel parent_node nodes_to_expand,
  node_repr F node t -> (height t <= fuel)%nat -> t <> Leaf ->
  exists nodes parent,
    BinaryTree.chop_descend fuel storage chop_key node parent_node
                            nodes_to_expand
    = Returns (Some parent, nodes_to_expand ++ nodes)
    /\ Forall2 is_node (nodes ++ [parent]) (chop_path t chop_key).
Proof.
  induction t as [ | l IHl k v r IHr];
    intros node fuel parent_node acc NR Hfuel Hne; [congruence | ].
  inversion NR as [ | lr k' vr rr l' v' r' Rl Rv Rr]; subst.
  destruct fuel as [ | fuel]; [simpl in Hfuel; lia | ].
  simpl in Hfuel.
  cbn [BinaryTree.chop_descend BinaryNode.key BinaryNode.left_ref
       BinaryNode.right_ref chop_path].
  assert (Hstop : forall fuel',
    exists nodes parent,
      BinaryTree.chop_descend fuel' storage chop_key None
        (Some (mkBinaryNode lr k vr rr)) acc
      = Returns (Some parent, acc ++ nodes)
      /\ Forall2 is_node (nodes ++ [parent]) [Node l k v r]).
  { intros fuel'. exists [], (mkBinaryNode lr k vr rr).
    split; [destruct fuel'; simpl; now rewrite app_nil_r | ].
    repeat constructor; assumption. }
  destruct (chop_key <? k)%Z.
  - follow Rl n Hf Hn.
    destruct l as [ | ll lk' lv lr'].
    + inversion Hn; subst. apply Hstop.
    + apply IHl; [assumption | lia | congruence].
  - destruct (chop_key >? k)%Z; [ | apply Hstop].
    follow Rr n Hf Hn.
    destruct r as [ | rl rk rv rr'].
    + inversion Hn; subst. apply Hstop.
    + inversion Hn as [ | ? ? ? ? ? ? ? ? ? ? E1 E2 ]; subst.
      edestruct IHr as (nodes & parent & -> & HF2);
        [exact Hn | lia | congruence | ].
      exists (mkBinaryNode lr k vr rr :: nodes), parent.
      split; [now rewrite <- app_assoc | ].
      cbn [app]. constructor; [exact NR | exact HF2].
Qed.

Lemma chop_collect_spec fuel nodes trees :
  Forall2 is_node nodes trees ->
  Forall (fun s => (height s <= fuel)%nat) trees ->
  forall out,
    BinaryTree.chop_collect fuel storage chop_key nodes out
    = Returns (out ++ flat_map (expand chop_key) trees).
Proof.
  induction 1 as [ | n s nodes trees Hn _ IH]; intros Hh out.
  - simpl. now rewrite app_nil_r.
  - inversion Hh as [ | ? ? Hs Hrest]; subst.
    inversion Hn as [ | lr k vr rr l v r Rl Rv Rr]; subst.
    simpl in Hs.
    cbn [BinaryTree.chop_collect BinaryNode.key BinaryNode.left_ref
         BinaryNode.value_ref flat_map expand].
    assert (Hout :
      (if (k <=? chop_key)%Z
       then value <-? BinaryTree._follow_value vr storage ;
            Returns (out ++ [(k, value)])
       else Returns out)
      = Returns (out ++ (if (k <=? chop_key)%Z then [(k, Some v)] else []))).
    { destruct (k <=? chop_key)%Z.
      - unfold storage. now rewrite (follow_value F lk _ _ Rv).
      - now rewrite app_nil_r. }
    rewrite Hout. cbn [obind].
    follow Rl nl Hfl Hnl.
    unfold storage at 1.
    rewrite (traverse_in_order_spec F lk l nl fuel Hnl) by lia.
    cbn [obind].
    rewrite (IH Hrest). now rewrite <- !app_assoc.
Qed.

End Chop.

(** * [store]: what a commit appends to the file *)
Section Persist.
Context `{Pickle}.

Lemma size_nonzero F : 8 <= PyFile.size F -> PyFile.size F <> 0.
Proof. lia. Qed.

Lemma value_store_spec F0 vr v :
  value_at F0 vr v ->
  forall F lk, extends F0 F -> 8 <= PyFile.size F ->
  stored_value F lk v (ValueRef.store vr (Storage.mk F lk false)).
Proof.
  intros R F lk E H8. unfold stored_value.
  destruct R as [ v | v a Ha Hr | v a Ha Hr ];
    unfold ValueRef.store; cbn [ValueRef._referent ValueRef._address].
  - cbn [N.eqb]. monad_unfold.
    destruct (N.lt_ge_cases
                (N.of_nat (length (ValueRef.referent_to_bytes v))) (2 ^ 64))
      as [Hd | Hd].
    + rewrite (write_returns _ F lk Hd). cbn [fst snd].
      eexists _, true. split; [reflexivity | ]. split; [now left | ].
      pose proof (size_nonzero F H8).
      split; constructor; auto using record_at_end.
    + rewrite (write_raises _ F lk Hd). cbn [fst snd].
      exists [], true. rewrite app_nil_r. auto.
  - apply N.eqb_neq in Ha as Ha'. rewrite Ha'. monad_unfold. cbn [fst snd].
    exists [], lk. rewrite app_nil_r. split; [reflexivity | ].
    split; [now right | ].
    destruct E as [_ E]. split; constructor; auto.
  - monad_unfold. cbn [fst snd].
    exists [], lk. rewrite app_nil_r. split; [reflexivity | ].
    split; [now right | ].
    destruct E as [_ E]. split; constructor; auto.
Qed.

Lemma store_dirty depth lr k vr rr st :
  BinaryNodeRef.store
    (S (S (S depth))) (mkBinaryNodeRef (Some (mkBinaryNode lr k vr rr)) 0) st
  = (v' <- ValueRef.store vr ;;
     l' <- BinaryNodeRef.store depth lr ;;
     r' <- BinaryNodeRef.store depth rr ;;
     a' <- Storage.write
             (BinaryNodeRef.referent_to_bytes (mkBinaryNode l' k v' r')) ;;
     ret (mkBinaryNodeRef (Some (mkBinaryNode l' k v' r')) a')) st.
Proof.
  cbn [BinaryNodeRef.store BinaryNodeRef.store_refs N.eqb].
  unfold bind, ret.
  destruct (ValueRef.store vr st) as [[v' | e | ] s1]; try reflexivity.
  destruct (BinaryNodeRef.store depth lr s1) as [[l' | e | ] s2];
    try reflexivity.
  destruct (BinaryNodeRef.store depth rr s2) as [[r' | e | ] s3];
    reflexivity.
Qed.

(** With fewer than three frames left a reference that holds a node and has
    no address is not stored. *)
Lemma store_no_frames depth node st :
  (depth < 3)%nat ->
  BinaryNodeRef.store depth (mkBinaryNodeRef (Some node) 0) st
  = (Raises RecursionError, st).
Proof.
  intros Hd. destruct depth as [ | [ | [ | depth]]]; try lia; reflexivity.
Qed.

Lemma extends_app_trans F0 F X : extends F0 F -> extends F0 (F ++ X).
Proof. intros E. eapply extends_trans; [exact E | apply extends_app]. Qed.

Lemma size_app_le F X : 8 <= PyFile.size F -> 8 <= PyFile.size (F ++ X).
Proof. rewrite size_app. lia. Qed.

Lemma lock_step (lk lk1 lk2 : bool) :
  lk1 = true \/ lk1 = lk -> lk2 = true \/ lk2 = lk1 ->
  lk2 = true \/ lk2 = lk.
Proof. intros [-> | ->] [-> | ->]; auto. Qed.

Lemma store_spec F0 ref t :
  repr F0 ref t ->
  forall depth F lk, extends F0 F -> 8 <= PyFile.size F ->
  stored_node F lk t
              (BinaryNodeRef.store depth ref (Storage.mk F lk false)).
Proof.
  intros R.
  induction R as [ | a d l v r Ha Hrec Rl IHl Rv Rr IHr
                   | lr k vr rr l v r Rl IHl Rv Rr IHr
                   | a lr k vr rr l v r Ha Rd IHd Rl IHl Rv Rr IHr ];
    intros depth F lk E H8.
  - exists [], lk. rewrite app_nil_r. cbn.
    split; [reflexivity | split; [now right | split; constructor]].
  - exists [], lk. rewrite app_nil_r. cbn [BinaryNodeRef.store ret fst snd].
    split; [reflexivity | ]. split; [now right | ].
    assert (repr F (mkBinaryNodeRef None a) (Node l (d_key d) v r))
      by (eapply repr_extends; [exact E | econstructor; eauto]).
    split; assumption.
  - destruct (Nat.lt_ge_cases depth 3) as [Hlow | Hdepth].
    { rewrite store_no_frames by exact Hlow.
      exists [], lk. rewrite app_nil_r. cbn [fst snd]. auto. }
    destruct depth as [ | [ | [ | depth]]]; try lia. clear Hdepth.
    rewrite store_dirty.
    destruct (value_store_spec _ _ _ Rv F lk E H8)
      as (X1 & lk1 & S1 & L1 & P1).
    unfold bind at 1.
    destruct (ValueRef.store vr (Storage.mk F lk false)) as [[v' | e | ] s1];
      cbn [fst snd] in S1, P1; subst s1;
      [ | destruct P1 as (-> & -> & Hlong); exists X1, true;
          split; [reflexivity | cbn [fst]; auto]
        | contradiction].
    destruct P1 as [Pv Pv'].
    destruct (IHl depth (F ++ X1) lk1 (extends_app_trans _ _ X1 E)
                  (size_app_le _ X1 H8)) as (X2 & lk2 & S2 & L2 & P2).
    pose proof (lock_step lk lk1 lk2 L1 L2) as L12.
    unfold bind at 1.
    destruct (BinaryNodeRef.store depth lr (Storage.mk (F ++ X1) lk1 false))
      as [[l' | e | ] s2];
      cbn [fst snd] in S2, P2; subst s2; rewrite <- app_assoc in *;
      [ | exists (X1 ++ X2), lk2;
          split; [reflexivity | cbn [fst]; auto]
        | contradiction].
    destruct P2 as [Pl Pl'].
    destruct (IHr depth (F ++ X1 ++ X2) lk2 (extends_app_trans _ _ _ E)
                  (size_app_le _ _ H8)) as (X3 & lk3 & S3 & L3 & P3).
    pose proof (lock_step lk lk2 lk3 L12 L3) as L123.
    unfold bind at 1.
    destruct (BinaryNodeRef.store depth rr
                (Storage.mk (F ++ X1 ++ X2) lk2 false))
      as [[r' | e | ] s3];
      cbn [fst snd] in S3, P3; subst s3; rewrite <- !app_assoc in *;
      [ | exists (X1 ++ X2 ++ X3), lk3;
          split; [reflexivity | cbn [fst]; auto]
        | contradiction].
    destruct P3 as [Pr Pr'].
    unfold bind, ret.
    set (data := BinaryNodeRef.referent_to_bytes (mkBinaryNode l' k v' r')).
    set (F3 := F ++ X1 ++ X2 ++ X3) in *.
    assert (H83 : 8 <= PyFile.size F3) by (apply size_app_le, H8).
    destruct (N.lt_ge_cases (N.of_nat (length data)) (2 ^ 64)) as [Hd | Hd].
    + rewrite (write_returns _ F3 lk3 Hd). cbn [fst snd].
      set (hdr := struct.big_endian 8 (N.of_nat (length data))).
      exists (X1 ++ X2 ++ X3 ++ hdr ++ data), true.
      assert (EF : F ++ X1 ++ X2 ++ X3 ++ hdr ++ data = F3 ++ hdr ++ data)
        by (unfold F3; now rewrite <- !app_assoc).
      rewrite EF. split; [reflexivity | ]. split; [now left | ].
      assert (E12 : extends (F ++ X1) (F3 ++ hdr ++ data)).
      { unfold F3. rewrite (app_assoc F X1), <- app_assoc.
        apply extends_app. }
      assert (E123 : extends (F ++ X1 ++ X2) (F3 ++ hdr ++ data)).
      { unfold F3. rewrite (app_assoc X1 X2), (app_assoc F (X1 ++ X2)).
        rewrite <- (app_assoc (F ++ X1 ++ X2)). apply extends_app. }
      assert (E3 : extends F3 (F3 ++ hdr ++ data)) by apply extends_app.
      assert (Rdisk : repr (F3 ++ hdr ++ data)
                        (mkBinaryNodeRef None (PyFile.size F3))
                        (Node l k v r)).
      { apply (repr_disk (F3 ++ hdr ++ data) (PyFile.size F3)
                 {| d_left := BinaryNodeRef.address l'; d_key := k;
                    d_value := ValueRef.address v';
                    d_right := BinaryNodeRef.address r' |}).
        - now apply size_nonzero.
        - apply record_at_end; assumption.
        - cbn [d_left]. eapply repr_extends; [exact E123 | exact Pl'].
        - cbn [d_value]. eapply value_at_extends; [exact E12 | exact Pv'].
        - cbn [d_right]. eapply repr_extends; [exact E3 | exact Pr']. }
      split; [ | exact Rdisk].
      apply repr_cached.
      * now apply size_nonzero.
      * exact Rdisk.
      * eapply repr_extends; [exact E123 | exact Pl].
      * eapply value_at_extends; [exact E12 | exact Pv].
      * eapply repr_extends; [exact E3 | exact Pr].
    + rewrite (write_raises _ F3 lk3 Hd). cbn [fst snd].
      exists (X1 ++ X2 ++ X3), true.
      split; [reflexivity | cbn [fst]; auto].
  - exists [], lk. rewrite app_nil_r.
    cbn [BinaryNodeRef.store]. apply N.eqb_neq in Ha as Ha'. rewrite Ha'.
    cbn [ret fst snd]. split; [reflexivity | ]. split; [now right | ].
    split; eapply repr_extends; try exact E; [ | exact Rd].
    now constructor.
Qed.

End Persist.

(** * Facts about trees *)

Lemma all_keys_insert (P : Z -> Prop) t key value :
  all_keys P t -> P key -> all_keys P (insert t key value).
Proof.
  induction t as [ | l IHl k v r IHr]; simpl.
  - auto.
  - intros (Hk & Hl & Hr) Hkey.
    destruct (key <? k)%Z; [simpl; auto | ].
    destruct (key >? k)%Z; simpl; auto.
Qed.

Lemma bst_insert t key value : bst t -> bst (insert t key value).
Proof.
  induction t as [ | l IHl k v r IHr]; simpl.
  - auto.
  - intros (Hlt & Hgt & Bl & Br).
    destruct (Z.ltb_spec key k).
    + simpl. auto using all_keys_insert.
    + destruct (Z.gtb_spec key k).
      * simpl. repeat split; auto. apply all_keys_insert; [assumption | lia].
      * simpl. auto.
Qed.

Lemma height_insert t key value :
  (height (insert t key value) <= S (height t))%nat.
Proof.
  induction t as [ | l IHl k v r IHr]; simpl; [lia | ].
  destruct (key <? k)%Z; [simpl; lia | ].
  destruct (key >? k)%Z; simpl; lia.
Qed.










(** * The invariant of an open database *)
Section Database.
Context `{Pickle}.

Lemma get_root_address_app F X lk lk' cl :
  8 <= PyFile.size F ->
  Storage.get_root_address (Storage.mk (F ++ X) lk cl)
  = Storage.get_root_address (Storage.mk F lk' cl).
Proof.
  intros H8.
  unfold Storage.get_root_address, Storage._read_integer, PyFile.read_at.
  cbn [Storage._f Storage.f_closed]. destruct cl; [reflexivity | ].
  change (N.to_nat 0) with 0%nat. rewrite !skipn_O.
  rewrite firstn_app.
  replace (N.to_nat Storage.INTEGER_LENGTH - length F)%nat with 0%nat
    by (unfold PyFile.size, Storage.INTEGER_LENGTH in *; lia).
  now rewrite firstn_O, app_nil_r.
Qed.

Lemma committed_app F X t :
  8 <= PyFile.size F -> committed F t -> committed (F ++ X) t.
Proof.
  intros H8 (a & Ha & Ra). exists a. split.
  - now rewrite (get_root_address_app F X false false false H8).
  - eapply repr_extends; [apply extends_app | exact Ra].
Qed.

Lemma refresh_tree_ref_spec F lk ref a :
  Storage.get_root_address (Storage.mk F false false) = Returns a ->
  BinaryTree._refresh_tree_ref (BinaryTree.mk (Storage.mk F lk false) ref)
  = (Returns tt,
     BinaryTree.mk (Storage.mk F lk false) (mkBinaryNodeRef None a)).
Proof.
  intros Ha. unfold BinaryTree._refresh_tree_ref, BinaryTree.set_tree_ref.
  monad_unfold. cbn [BinaryTree._storage].
  rewrite (get_root_address_lock_free F lk false false), Ha. reflexivity.
Qed.

Lemma superblock_has_root F :
  Storage.SUPERBLOCK_SIZE <= PyFile.size F -> 8 <= PyFile.size F.
Proof. unfold Storage.SUPERBLOCK_SIZE. lia. Qed.

(** A read of the facade: the closed check, the refresh of the root unless
    the handle holds the lock, then a computation [f] that changes nothing. *)
Lemma read_call {A} (f : BinaryTree.t -> outcome A) db tc tm :
  inv db tc tm ->
  exists ref,
    let tree := BinaryTree.mk (DBDB._storage db) ref in
    (DBDB._assert_not_closed ;;;
     DBDB.on_tree (BinaryTree.refresh_unless_locked ;;; pure_call f)) db
    = (f tree, DBDB.mk tree)
    /\ repr (file_of db) ref tm
    /\ inv (DBDB.mk tree) tc tm.
Proof.
  destruct db as [[[F lk cl] ref]].
  unfold inv, holds, file_of, DBDB._storage.
  cbn [DBDB._tree BinaryTree._storage BinaryTree._tree_ref Storage._f
       Storage.f_closed Storage.locked].
  intros (Hcl & Hsz & Hc & Hm & Hlk & Bc & Bm). subst cl.
  unfold DBDB._assert_not_closed, DBDB.on_tree,
    BinaryTree.refresh_unless_locked, DBDB._storage, Storage.closed.
  monad_unfold.
  cbn [DBDB._tree BinaryTree._storage BinaryTree._tree_ref Storage._f
       Storage.f_closed Storage.locked].
  destruct lk; cbn [negb].
  - exists ref. repeat split; auto.
  - destruct Hc as (a & Ha & Ra).
    rewrite (refresh_tree_ref_spec F false ref a Ha).
    exists (mkBinaryNodeRef None a).
    rewrite (Hlk eq_refl) in *.
    repeat split; auto. exists a. auto.
Qed.

Lemma read_call_state {A} (f : BinaryTree.t -> outcome A) db tc tm :
  inv db tc tm ->
  let db' := snd ((DBDB._assert_not_closed ;;;
                   DBDB.on_tree (BinaryTree.refresh_unless_locked ;;;
                                 pure_call f)) db) in
  inv db' tc tm /\ DBDB._storage db' = DBDB._storage db.
Proof.
  intros I. destruct (read_call f db tc tm I) as (ref & E & _ & I').
  cbv zeta in *. rewrite E. cbn [snd]. split; [exact I' | reflexivity].
Qed.

Lemma get_outcome fuel key db tc tm :
  inv db tc tm -> (height tm <= fuel)%nat ->
  fst (DBDB.get fuel key db) = found (lookup tm key).
Proof.
  intros I Hfuel.
  unfold DBDB.get, BinaryTree.get.
  destruct (read_call
              (fun self =>
                 node <-? BinaryTree._follow (BinaryTree._tree_ref self)
                                             (BinaryTree._storage self) ;
                 BinaryTree.get_loop fuel (BinaryTree._storage self) node key)
              db tc tm I) as (ref & E & R & _).
  cbv zeta in E. rewrite E. cbn [fst BinaryTree._tree_ref BinaryTree._storage].
  unfold file_of in R. pose proof (proj1 I) as Hcl.
  destruct (DBDB._storage db) as [F lk cl].
  cbn [Storage._f Storage.f_closed] in R, Hcl. subst cl.
  destruct (follow_repr F lk _ _ R) as (node & -> & Hn). cbn [obind].
  now apply get_loop_spec.
Qed.

Lemma get_left_outcome fuel key db tc tm :
  inv db tc tm -> (height tm <= fuel)%nat ->
  fst (DBDB.get_left fuel key db) = child_outcome fst tm key.
Proof.
  intros I Hfuel.
  unfold DBDB.get_left, BinaryTree.get_left.
  destruct (read_call
              (fun self =>
                 node <-? BinaryTree._follow (BinaryTree._tree_ref self)
                                             (BinaryTree._storage self) ;
                 BinaryTree.child_loop BinaryNode.left_ref fuel
                   (BinaryTree._storage self) node key)
              db tc tm I) as (ref & E & R & _).
  cbv zeta in E. rewrite E. cbn [fst BinaryTree._tree_ref BinaryTree._storage].
  unfold file_of in R. pose proof (proj1 I) as Hcl.
  destruct (DBDB._storage db) as [F lk cl].
  cbn [Storage._f Storage.f_closed] in R, Hcl. subst cl.
  destruct (follow_repr F lk _ _ R) as (node & -> & Hn). cbn [obind].
  apply child_loop_spec; auto.
Qed.

Lemma get_right_outcome fuel key db tc tm :
  inv db tc tm -> (height tm <= fuel)%nat ->
  fst (DBDB.get_right fuel key db) = child_outcome snd tm key.
Proof.
  intros I Hfuel.
  unfold DBDB.get_right, BinaryTree.get_right.
  destruct (read_call
              (fun self =>
                 node <-? BinaryTree._follow (BinaryTree._tree_ref self)
                                             (BinaryTree._storage self) ;
                 BinaryTree.child_loop BinaryNode.right_ref fuel
                   (BinaryTree._storage self) node key)
              db tc tm I) as (ref & E & R & _).
  cbv zeta in E. rewrite E. cbn [fst BinaryTree._tree_ref BinaryTree._storage].
  unfold file_of in R. pose proof (proj1 I) as Hcl.
  destruct (DBDB._storage db) as [F lk cl].
  cbn [Storage._f Storage.f_closed] in R, Hcl. subst cl.
  destruct (follow_repr F lk _ _ R) as (node & -> & Hn). cbn [obind].
  apply child_loop_spec; auto.
Qed.

(** [chop] on a tree that is not empty returns [chop_result]; on the empty
    tree [parent_node] is read before it was ever assigned. *)
Lemma chop_outcome fuel chop_key db tc tm :
  inv db tc tm -> (height tm <= fuel)%nat ->
  fst (DBDB.chop fuel chop_key db)
  = match tm with
    | Leaf => Raises (UnboundLocalError "parent_node")
    | Node _ _ _ _ => Returns (chop_result tm chop_key)
    end.
Proof.
  intros I Hfuel.
  unfold DBDB.chop, BinaryTree.chop.
  match goal with
  | |- fst ((_ ;;; DBDB.on_tree (_ ;;; pure_call ?f)) db) = _ =>
      destruct (read_call f db tc tm I) as (ref & E & R & _)
  end.
  cbv zeta in E. rewrite E. cbn [fst BinaryTree._tree_ref BinaryTree._storage].
  unfold file_of in R. pose proof (proj1 I) as Hcl.
  destruct (DBDB._storage db) as [F lk cl].
  cbn [Storage._f Storage.f_closed] in R, Hcl. subst cl.
  destruct (follow_repr F lk _ _ R) as (node & -> & Hn). cbn [obind].
  destruct tm as [ | l k v r].
  - inversion Hn; subst. destruct fuel; reflexivity.
  - destruct (chop_descend_spec F lk chop_key (Node l k v r) node fuel
                None [] Hn Hfuel) as (nodes & parent & -> & HF2);
      [congruence | ].
    cbn [obind app].
    rewrite (chop_collect_spec F lk chop_key fuel _ _ HF2).
    + reflexivity.
    + eapply Forall_impl; [ | apply chop_path_height].
      cbn beta. intros s Hs. lia.
Qed.

Lemma get_min_call fuel db :
  Storage.f_closed (DBDB._storage db) = false ->
  DBDB.get_min fuel db
  = (node <-? BinaryTree._follow (BinaryTree._tree_ref (DBDB._tree db))
                                 (DBDB._storage db) ;
     match node with
     | None => Raises (AttributeError "NoneType" "left_ref")
     | Some node => BinaryTree.get_min_loop fuel (DBDB._storage db) node
     end, db).
Proof.
  destruct db as [[[F lk cl] ref]].
  unfold DBDB._storage. cbn [DBDB._tree BinaryTree._storage Storage.f_closed].
  intros ->. reflexivity.
Qed.

Lemma get_min_outcome fuel db tc tm :
  inv db tc tm -> (height tm <= fuel)%nat ->
  fst (DBDB.get_min fuel db)
  = match tm with
    | Leaf => Raises (AttributeError "NoneType" "left_ref")
    | Node _ _ _ _ => Returns (leftmost tm)
    end.
Proof.
  intros I Hfuel. rewrite get_min_call by apply I. cbn [fst].
  destruct I as (Hcl & _ & _ & R & _).
  unfold holds, file_of in R. destruct (DBDB._storage db) as [F lk cl].
  cbn [Storage._f Storage.f_closed] in R, Hcl. subst cl.
  destruct (follow_repr F lk _ _ R) as (node & -> & Hn). cbn [obind].
  inversion Hn as [ | lr k vr rr l v r Rl Rv Rr]; subst; [reflexivity | ].
  now apply (get_min_loop_spec F lk (Node l k v r) lr k vr rr l v r).
Qed.

End Database.

(** * [set], [commit], [close] and [connect] *)
Section Writing.
Context `{Pickle}.

Lemma set_locked fuel key value F cl ref :
  BinaryTree.set fuel key value (BinaryTree.mk (Storage.mk F true cl) ref)
  = set_body fuel key value (BinaryTree.mk (Storage.mk F true cl) ref).
Proof. reflexivity. Qed.

Lemma set_unlocked fuel key value F ref a :
  Storage.get_root_address (Storage.mk F false false) = Returns a ->
  BinaryTree.set fuel key value
                 (BinaryTree.mk (Storage.mk F false false) ref)
  = set_body fuel key value
      (BinaryTree.mk (Storage.mk F true false) (mkBinaryNodeRef None a)).
Proof.
  intros Ha.
  unfold BinaryTree.set, BinaryTree.on_storage, Storage.lock.
  unfold bind at 1 2.
  cbn [BinaryTree._storage BinaryTree._tree_ref Storage.locked negb
       Storage._f Storage.f_closed].
  now rewrite (refresh_tree_ref_spec F true ref a Ha).
Qed.

Lemma set_body_spec fuel key value F ref tm :
  repr F ref tm -> bst tm ->
  let res :=
    set_body fuel key value (BinaryTree.mk (Storage.mk F true false) ref) in
  exists tm' ref',
    snd res = BinaryTree.mk (Storage.mk F true false) ref'
    /\ repr F ref' tm' /\ bst tm'
    /\ (tm' = tm \/ tm' = insert tm key value)
    /\ ((height tm < fuel)%nat ->
        fst res = Returns tt /\ tm' = insert tm key value)
    /\ (fst res = Returns tt /\ tm' = insert tm key value
        \/ fst res = Raises RecursionError /\ tm' = tm).
Proof.
  intros R B. cbv zeta. unfold set_body, BinaryTree.set_tree_ref.
  monad_unfold. cbn [BinaryTree._tree_ref BinaryTree._storage].
  destruct (follow_repr F true _ _ R) as (node & -> & Hn).
  cbn [obind].
  pose proof (insert_outcome F true key value tm node fuel Hn) as O.
  destruct (BinaryTree._insert fuel _ node key _) as [ref' | e | ];
    cbn [fst snd BinaryTree._tree_ref BinaryTree._storage].
  - exists (insert tm key value), ref'.
    repeat split; auto using bst_insert.
  - destruct O as [-> Hfuel]. exists tm, ref.
    repeat split; auto; lia.
  - contradiction.
Qed.

Lemma facade_call {A} (m : M BinaryTree.t A) tree :
  Storage.f_closed (BinaryTree._storage tree) = false ->
  (DBDB._assert_not_closed ;;; DBDB.on_tree m) (DBDB.mk tree)
  = (fst (m tree), DBDB.mk (snd (m tree))).
Proof.
  intros Hcl.
  unfold DBDB._assert_not_closed, DBDB.on_tree, DBDB._storage, Storage.closed.
  monad_unfold. cbn [DBDB._tree]. rewrite Hcl. cbn [DBDB._tree].
  now destruct (m tree).
Qed.

(** [set] writes nothing: it takes the lock and replaces the root reference
    in memory. *)
Lemma set_call fuel key value db tc tm :
  inv db tc tm ->
  let res := DBDB.set fuel key value db in
  exists tm',
    inv (snd res) tc tm'
    /\ file_of (snd res) = file_of db
    /\ Storage.locked (DBDB._storage (snd res)) = true
    /\ (tm' = tm \/ tm' = insert tm key value)
    /\ ((height tm < fuel)%nat ->
        fst res = Returns tt /\ tm' = insert tm key value)
    /\ (fst res = Returns tt /\ tm' = insert tm key value
        \/ fst res = Raises RecursionError /\ tm' = tm).
Proof.
  destruct db as [[[F lk cl] ref]].
  unfold inv, holds, file_of, DBDB._storage.
  cbn [DBDB._tree BinaryTree._storage BinaryTree._tree_ref Storage._f
       Storage.f_closed Storage.locked].
  intros (Hcl & Hsz & Hc & Hm & Hlk & Bc & Bm). subst cl.
  cbv zeta. unfold DBDB.set. rewrite facade_call by reflexivity.
  assert (Hbody : exists ref0,
    BinaryTree.set fuel key value (BinaryTree.mk (Storage.mk F lk false) ref)
    = set_body fuel key value (BinaryTree.mk (Storage.mk F true false) ref0)
    /\ repr F ref0 tm).
  { destruct lk.
    - exists ref. split; [apply set_locked | exact Hm].
    - destruct Hc as (a & Ha & Ra). exists (mkBinaryNodeRef None a).
      split; [now apply set_unlocked | ].
      now rewrite (Hlk eq_refl). }
  destruct Hbody as (ref0 & -> & R0).
  destruct (set_body_spec fuel key value F ref0 tm R0 Bm)
    as (tm' & ref' & S' & R' & B' & Hor & Hfuel & Hout).
  cbv zeta in S', Hfuel, Hout. cbn [fst snd]. rewrite S'.
  cbn [DBDB._tree BinaryTree._storage BinaryTree._tree_ref Storage._f
       Storage.f_closed Storage.locked].
  exists tm'.
  split; [repeat split; auto; discriminate | ].
  split; [reflexivity | ]. split; [reflexivity | ].
  split; [exact Hor | ]. split; [exact Hfuel | exact Hout].
Qed.

Lemma size_root_written hdr F :
  length hdr = 8%nat -> 8 <= PyFile.size F ->
  PyFile.size (hdr ++ skipn 8 F) = PyFile.size F.
Proof.
  unfold PyFile.size. intros Hh H8.
  rewrite length_app, length_skipn, Hh. lia.
Qed.

Lemma tree_commit_eq depth st ref :
  BinaryTree.commit depth (BinaryTree.mk st ref)
  = match BinaryNodeRef.store depth ref st with
    | (Returns ref', st') =>
        let (o, st'') :=
          Storage.commit_root_address (BinaryNodeRef.address ref') st' in
        (o, BinaryTree.mk st'' ref')
    | (Raises e, st') => (Raises e, BinaryTree.mk st' ref)
    | (OutOfFuel, st') => (OutOfFuel, BinaryTree.mk st' ref)
    end.
Proof.
  unfold BinaryTree.commit, BinaryTree.on_storage, bind.
  cbn [BinaryTree._storage BinaryTree._tree_ref].
  destruct (BinaryNodeRef.store depth ref st) as [[ref' | e | ] st'];
    reflexivity.
Qed.

Lemma record_at_bound F a d : record_at F a d -> a <= PyFile.size F.
Proof.
  intros (pre & post & -> & <- & _). unfold PyFile.size.
  rewrite length_app. lia.
Qed.

Lemma repr_address_bound F a t :
  repr F (mkBinaryNodeRef None a) t -> a <= PyFile.size F.
Proof.
  intros R. inversion R; subst; [lia | eauto using record_at_bound].
Qed.

(** [commit] either returns, and then the working tree is the committed
    tree and the lock is released, or raises [struct.error] or
    [RecursionError] with the committed tree as it was; the lock is then
    held if it was or if something was written. *)
Lemma commit_call depth db tc tm :
  inv db tc tm ->
  let res := DBDB.commit depth db in
  (fst res = Returns tt /\ inv (snd res) tm tm
   /\ Storage.locked (DBDB._storage (snd res)) = false)
  \/ ((fst res = Raises struct_error \/ fst res = Raises RecursionError)
      /\ inv (snd res) tc tm
      /\ (Storage.locked (DBDB._storage (snd res)) = true
          \/ Storage.locked (DBDB._storage (snd res))
             = Storage.locked (DBDB._storage db))).
Proof.
  destruct db as [[[F lk cl] ref]].
  unfold inv, holds, file_of, DBDB._storage.
  cbn [DBDB._tree BinaryTree._storage BinaryTree._tree_ref Storage._f
       Storage.f_closed Storage.locked].
  intros (Hcl & Hsz & Hc & Hm & Hlk & Bc & Bm). subst cl.
  cbv zeta. unfold DBDB.commit. rewrite facade_call by reflexivity.
  pose proof (superblock_has_root F Hsz) as H8.
  destruct (store_spec F ref tm Hm depth F lk (extends_refl F) H8)
    as (X & lk' & S & L & P).
  rewrite tree_commit_eq.
  assert (Hsz' : Storage.SUPERBLOCK_SIZE <= PyFile.size (F ++ X))
    by (rewrite size_app; lia).
  destruct (BinaryNodeRef.store depth ref (Storage.mk F lk false))
    as [[ref' | e | ] st']; cbn [fst snd] in S, P; subst st';
    [ | | contradiction].
  - destruct P as [R' Rdisk].
    destruct (N.lt_ge_cases (BinaryNodeRef.address ref') (2 ^ 64))
      as [Ha | Ha].
    + left. rewrite (commit_root_address_returns _ (F ++ X) lk' Ha).
      cbn [fst snd DBDB._tree BinaryTree._storage BinaryTree._tree_ref
           Storage._f Storage.f_closed Storage.locked].
      set (hdr := struct.big_endian 8 (BinaryNodeRef.address ref')).
      assert (Hh : length hdr = 8%nat) by apply big_endian_length.
      assert (E : extends (F ++ X) (hdr ++ skipn 8 (F ++ X))).
      { apply extends_root; [exact Hh | ].
        pose proof (superblock_has_root _ Hsz').
        unfold PyFile.size in *. lia. }
      repeat split; auto.
      * rewrite size_root_written; auto using superblock_has_root.
      * exists (BinaryNodeRef.address ref'). split.
        -- now apply get_root_address_after_commit.
        -- eapply repr_extends; eassumption.
      * eapply repr_extends; eassumption.
    + right. rewrite (commit_root_address_raises _ (F ++ X) lk' Ha).
      cbn [fst snd DBDB._tree BinaryTree._storage BinaryTree._tree_ref
           Storage._f Storage.f_closed Storage.locked].
      split; [now left | ]. split; [ | now left].
      repeat split; auto using committed_app; try discriminate.
  - right.
    cbn [fst snd DBDB._tree BinaryTree._storage BinaryTree._tree_ref
         Storage._f Storage.f_closed Storage.locked].
    split; [destruct P as [[-> _] | ->]; auto | ].
    split; [ | exact L].
    repeat split; auto using committed_app.
    + eapply repr_extends; [apply extends_app | exact Hm].
    + intros ->. destruct L as [L | L]; [discriminate L | ].
      apply Hlk. now rewrite <- L.
Qed.

Lemma close_call db :
  DBDB.close db
  = (Returns tt,
     DBDB.mk (BinaryTree.mk
                (Storage.mk (file_of db) false true)
                (BinaryTree._tree_ref (DBDB._tree db)))).
Proof.
  destruct db as [[[F lk cl] ref]].
  unfold DBDB.close, DBDB.on_tree, BinaryTree.on_storage, Storage.close,
    Storage.unlock.
  monad_unfold. destruct lk; reflexivity.
Qed.

Lemma connect_existing F a :
  Storage.SUPERBLOCK_SIZE <= PyFile.size F ->
  Storage.get_root_address (Storage.mk F false false) = Returns a ->
  connect F
  = Returns (DBDB.mk (BinaryTree.mk (Storage.mk F false false)
                                    (mkBinaryNodeRef None a))).
Proof.
  intros Hsz Ha. unfold connect, DBDB.__init__.
  rewrite (storage_init_keeps F Hsz).
  unfold BinaryTree.__init__.
  now rewrite (refresh_tree_ref_spec F false _ a Ha).
Qed.

(** Closing and connecting again: the handle works on the committed tree. *)
Lemma reopen_call db tc tm :
  inv db tc tm ->
  exists db',
    connect (file_of (snd (DBDB.close db))) = Returns db'
    /\ inv db' tc tc
    /\ file_of db' = file_of db.
Proof.
  intros (Hcl & Hsz & Hc & Hm & Hlk & Bc & Bm).
  rewrite close_call. cbn [snd]. unfold file_of at 1. cbn.
  destruct Hc as (a & Ha & Ra).
  rewrite (connect_existing _ a Hsz Ha).
  eexists. split; [reflexivity | ].
  split; [ | reflexivity].
  unfold inv, holds, file_of, DBDB._storage.
  cbn [DBDB._tree BinaryTree._storage BinaryTree._tree_ref Storage._f
       Storage.f_closed Storage.locked].
  repeat split; auto. exists a. auto.
Qed.

Lemma connect_new :
  connect []
  = Returns (DBDB.mk (BinaryTree.mk
                        (Storage.mk (repeat x00 4096) false false)
                        (mkBinaryNodeRef None 0))).
Proof. vm_compute. reflexivity. Qed.

Lemma inv_new db : connect [] = Returns db -> inv db Leaf Leaf.
Proof.
  rewrite connect_new. intros [= <-].
  unfold inv, holds, committed, file_of, DBDB._storage.
  cbn [DBDB._tree BinaryTree._storage BinaryTree._tree_ref Storage._f
       Storage.f_closed Storage.locked bst].
  repeat split; auto.
  - vm_compute. discriminate.
  - exists 0. split; [vm_compute; reflexivity | constructor].
  - constructor.
Qed.

Lemma delete_call key db :
  snd (DBDB.delete key db) = db.
Proof.
  unfold DBDB.delete, DBDB._assert_not_closed. monad_unfold.
  destruct (Storage.closed (DBDB._storage db)); reflexivity.
Qed.

(** Every reachable handle is open and satisfies the invariant. *)
Lemma reachable_inv db : reachable db -> exists tc tm, inv db tc tm.
Proof.
  induction 1 as [ db Hnew
                 | db fuel k v _ (tc & tm & I)
                 | db depth _ (tc & tm & I)
                 | db fuel k _ (tc & tm & I)
                 | db fuel _ (tc & tm & I)
                 | db fuel k _ (tc & tm & I)
                 | db fuel k _ (tc & tm & I)
                 | db fuel k _ (tc & tm & I)
                 | db k _ (tc & tm & I)
                 | db db' _ (tc & tm & I) Hre ].
  - exists Leaf, Leaf. now apply inv_new.
  - destruct (set_call fuel k v db tc tm I) as (tm' & I' & _). eauto.
  - destruct (commit_call depth db tc tm I)
      as [(_ & I' & _) | (_ & I' & _)]; eauto.
  - exists tc, tm. unfold DBDB.get, BinaryTree.get.
    now apply read_call_state.
  - exists tc, tm. rewrite get_min_call by apply I. exact I.
  - exists tc, tm. unfold DBDB.get_left, BinaryTree.get_left.
    now apply read_call_state.
  - exists tc, tm. unfold DBDB.get_right, BinaryTree.get_right.
    now apply read_call_state.
  - exists tc, tm. unfold DBDB.chop, BinaryTree.chop.
    now apply read_call_state.
  - exists tc, tm. now rewrite delete_call.
  - destruct (reopen_call db tc tm I) as (db'' & E & I' & _).
    rewrite E in Hre. injection Hre as <-. eauto.
Qed.

End Writing.

(** * The properties of the specification *)
Section Properties.
Context `{Pickle}.

Lemma inv_holds db tc tm t : inv db tc tm -> holds db t -> t = tm.
Proof.
  intros (_ & _ & _ & Hm & _) Ht. eapply repr_inj; eassumption.
Qed.

Lemma inv_committed db tc tm t :
  inv db tc tm -> committed (file_of db) t -> t = tc.
Proof.
  intros (_ & _ & (a & Ha & Ra) & _) (a' & Ha' & Ra').
  assert (a' = a) as -> by congruence.
  eapply repr_inj; eassumption.
Qed.

Lemma set_all_call calls : forall db tc tm fuel,
  inv db tc tm -> (height tm + length calls < fuel)%nat ->
  fst (set_all fuel calls db) = Returns tt
  /\ inv (snd (set_all fuel calls db)) tc (insert_all tm calls)
  /\ file_of (snd (set_all fuel calls db)) = file_of db.
Proof.
  induction calls as [ | [k v] calls IH]; intros db tc tm fuel I Hfuel.
  - simpl. auto.
  - cbn [set_all length] in *. unfold bind.
    destruct (set_call fuel k v db tc tm I)
      as (tm' & I' & Hfile & _ & _ & Hret & _).
    destruct Hret as [Hret ->]; [lia | ].
    destruct (DBDB.set fuel k v db) as [o db1]. cbn [fst snd] in *. subst o.
    pose proof (height_insert tm k v).
    destruct (IH db1 tc (insert tm k v) fuel I') as (E & I'' & Hfile');
      [lia | ].
    rewrite <- Hfile. auto.
Qed.


Lemma children_none t key : children t key = None <-> lookup t key = None.
Proof.
  induction t as [ | l IHl k v r IHr]; simpl; [tauto | ].
  destruct (key <? k)%Z; [assumption | ].
  destruct (key >? k)%Z; [assumption | ].
  split; discriminate.
Qed.

Lemma traverse_root_outcome fuel db tc tm :
  inv db tc tm -> (height tm <= fuel)%nat ->
  traverse_root fuel db = Returns (entries tm).
Proof.
  intros (Hcl & _ & _ & R & _) Hfuel.
  unfold holds, traverse_root, file_of in *.
  destruct (DBDB._storage db) as [F lk cl].
  cbn [Storage._f Storage.f_closed] in R, Hcl. subst cl.
  destruct (follow_repr F lk _ _ R) as (node & -> & Hn). cbn [obind].
  now apply traverse_in_order_spec.
Qed.



Lemma set_writes_nothing fuel key value db :
  file_of (snd (DBDB.set fuel key value db)) = file_of db.
Proof.
  destruct db as [[[F lk cl] ref]].
  unfold DBDB.set, DBDB._assert_not_closed, DBDB._storage, Storage.closed.
  unfold bind at 1. cbn [DBDB._tree BinaryTree._storage Storage.f_closed].
  destruct cl; [reflexivity | ].
  unfold DBDB.on_tree, BinaryTree.set, BinaryTree.on_storage, Storage.lock,
    BinaryTree._refresh_tree_ref, BinaryTree.set_tree_ref.
  monad_unfold.
  cbn [DBDB._tree BinaryTree._storage BinaryTree._tree_ref Storage.locked
       Storage._f Storage.f_closed].
  destruct lk; cbn [negb BinaryTree._storage BinaryTree._tree_ref];
    [ | destruct (Storage.get_root_address _) as [a | e | ];
        cbn [BinaryTree._storage BinaryTree._tree_ref]; try reflexivity ];
    match goal with
    | |- context [obind ?m ?k] => destruct (obind m k)
    end; reflexivity.
Qed.

Lemma close_writes_nothing db : file_of (snd (DBDB.close db)) = file_of db.
Proof. rewrite close_call. reflexivity. Qed.

(** C3, uncommitted sets are lost.  On any handle, [set] leaves the bytes
    of the file as they are, whatever its outcome, and so does [close]; on
    a reachable database, a new [connect] after [set] and [close] is the
    [connect] one would get without the [set], and it answers [get] from
    the committed tree of the file: the committed value of the key, or
    [KeyError] when it has none. *)
Theorem uncommitted_set_not_durable :
  (forall db fuel key value,
     file_of (snd (DBDB.set fuel key value db)) = file_of db
     /\ file_of (snd (DBDB.close (snd (DBDB.set fuel key value db))))
        = file_of db)
  /\ (forall db fuel key value,
        reachable db ->
        let db2 := snd (DBDB.close (snd (DBDB.set fuel key value db))) in
        exists tc db3,
          committed (file_of db) tc
          /\ connect (file_of db2) = Returns db3
          /\ connect (file_of db) = Returns db3
          /\ forall fuel' key', (height tc <= fuel')%nat ->
               fst (DBDB.get fuel' key' db3) = found (lookup tc key')).
Proof.
  split.
  - intros db fuel key value.
    now rewrite close_writes_nothing, set_writes_nothing.
  - intros db fuel key value Hreach.
    destruct (reachable_inv db Hreach) as (tc & tm & I). cbv zeta.
    destruct (set_call fuel key value db tc tm I) as (tm' & I1 & Hfile & _).
    cbv zeta in *.
    destruct (reopen_call _ _ _ I1) as (db3 & E3 & I3 & Hfile3).
    exists tc, db3. split; [apply I | ]. split; [exact E3 | ].
    split.
    + now rewrite close_writes_nothing, set_writes_nothing in E3.
    + intros fuel' key' Hfuel.
      now apply (get_outcome fuel' key' db3 tc tc).
Qed.

(** C4, ordering invariant.  Every reachable database holds a tree, both
    in memory and committed in its file, and any tree it holds is a search
    tree: at each node the keys under the left reference are smaller than
    the key of the node and the keys under the right reference greater. *)
Theorem ordering_invariant db :
  reachable db ->
  (exists t, holds db t)
  /\ (forall t, holds db t -> bst t)
  /\ (exists t, committed (file_of db) t)
  /\ (forall t, committed (file_of db) t -> bst t).
Proof.
  intros Hreach. destruct (reachable_inv db Hreach) as (tc & tm & I).
  pose proof I as (_ & _ & Hc & Hm & _ & Bc & Bm).
  repeat split; eauto.
  - intros t Ht. now rewrite (inv_holds db tc tm t I Ht).
  - intros t Ht. now rewrite (inv_committed db tc tm t I Ht).
Qed.



(** C2, chop.  On a reachable database holding the tree [t], with [all]
    what [traverse_in_order] lists from the root: when the tree is not
    empty, [chop(T)] returns the entries of [all] whose key is at most [T],
    in some order; on the empty tree it raises [UnboundLocalError], the
    variable [parent_node] being read without ever being assigned. *)
Theorem chop_correct db t chop_key fuel :
  reachable db -> holds db t -> (height t <= fuel)%nat ->
  let res := DBDB.chop fuel chop_key db in
  exists all,
    traverse_root fuel (snd res) = Returns all
    /\ match all with
       | [] => fst res = Raises (UnboundLocalError "parent_node")
       | _ :: _ =>
           exists out,
             fst res = Returns out
             /\ Permutation out (filter (at_most chop_key) all)
       end.
Proof.
  intros Hreach Ht Hfuel. destruct (reachable_inv db Hreach) as (tc & tm & I).
  rewrite (inv_holds db tc tm t I Ht) in *. cbv zeta.
  exists (entries tm).
  assert (I' : inv (snd (DBDB.chop fuel chop_key db)) tc tm).
  { unfold DBDB.chop, BinaryTree.chop. now apply read_call_state. }
  split; [apply (traverse_root_outcome _ _ _ _ I'); exact Hfuel | ].
  rewrite (chop_outcome fuel chop_key db tc tm I Hfuel).
  destruct tm as [ | l k v r]; [reflexivity | ].
  destruct (entries (Node l k v r)) as [ | e rest] eqn:E.
  - rewrite entries_node in E. now destruct (entries l).
  - rewrite <- E. eexists. split; [reflexivity | ].
    apply chop_result_permutation, I.
Qed.

(** What [connect] returns: an open handle without the lock, whose root
    reference is the root address of the file, unresolved. *)
Lemma connect_shape f db :
  connect f = Returns db ->
  exists F a,
    db = DBDB.mk (BinaryTree.mk (Storage.mk F false false)
                                (mkBinaryNodeRef None a))
    /\ Storage.get_root_address (Storage.mk F false false) = Returns a.
Proof.
  unfold connect, DBDB.__init__. intros Hc.
  pose proof (storage_init_flags f) as (_ & Hlk & Hcl).
  destruct (Storage.__init__ f) as [o [F lk cl]].
  cbn [snd Storage.locked Storage.f_closed] in Hlk, Hcl. subst lk cl.
  unfold BinaryTree.__init__, BinaryTree._refresh_tree_ref,
    BinaryTree.set_tree_ref in Hc.
  monad_unfold. cbn [BinaryTree._storage] in Hc.
  destruct (Storage.get_root_address (Storage.mk F false false))
    as [a | e | ] eqn:Ha; try discriminate.
  injection Hc as <-. now exists F, a.
Qed.

Lemma connect_empty_root f db :
  connect f = Returns db ->
  Storage.get_root_address (DBDB._storage db) = Returns 0 ->
  Storage.closed (DBDB._storage db) = false
  /\ BinaryTree._follow (BinaryTree._tree_ref (DBDB._tree db))
                        (DBDB._storage db) = Returns None.
Proof.
  intros Hc Hroot. destruct (connect_shape f db Hc) as (F & a & -> & Ha).
  unfold DBDB._storage in *. cbn [DBDB._tree BinaryTree._storage] in *.
  assert (a = 0) as -> by congruence.
  split; reflexivity.
Qed.

(** C6, queries on the empty tree.  [traverse_in_order] on the null root
    returns the empty list, whatever the fuel; the root of a database whose
    root address is 0 is that null root, and [chop] on it raises
    [UnboundLocalError] for every threshold instead of returning the empty
    list. *)
Theorem empty_tree_queries f db fuel chop_key :
  connect f = Returns db ->
  Storage.get_root_address (DBDB._storage db) = Returns 0 ->
  BinaryTree.traverse_in_order fuel (DBDB._storage db) None = Returns []
  /\ BinaryTree._follow (BinaryTree._tree_ref (DBDB._tree db))
                        (DBDB._storage db) = Returns None
  /\ fst (DBDB.chop fuel chop_key db)
     = Raises (UnboundLocalError "parent_node").
Proof.
  intros Hc Hroot.
  split; [now destruct fuel | ].
  split; [now apply (connect_empty_root f) | ].
  destruct (connect_shape f db Hc) as (F & a & -> & Ha).
  unfold DBDB._storage in *. cbn [DBDB._tree BinaryTree._storage] in *.
  assert (a = 0) as -> by congruence.
  unfold DBDB.chop. rewrite facade_call by reflexivity. cbn [fst].
  unfold BinaryTree.chop, BinaryTree.refresh_unless_locked.
  unfold bind at 1. cbn [BinaryTree._storage Storage.locked negb].
  rewrite (refresh_tree_ref_spec F false _ 0 Ha).
  unfold pure_call. cbn [fst BinaryTree._storage BinaryTree._tree_ref].
  destruct fuel; reflexivity.
Qed.

(** C7, missing child.  On a reachable database holding the tree [t]: when
    the node of [key] has a null left (right) reference, [get_left]
    ([get_right]) raises the [AttributeError] of [node_left.key] on [None],
    not [KeyError], and returns nothing; when [key] is not in the tree both
    raise [KeyError]. *)
Theorem missing_child_raises db t key fuel :
  reachable db -> holds db t -> (height t <= fuel)%nat ->
  (forall r, children t key = Some (Leaf, r) ->
     fst (DBDB.get_left fuel key db)
     = Raises (AttributeError "NoneType" "key"))
  /\ (forall l, children t key = Some (l, Leaf) ->
        fst (DBDB.get_right fuel key db)
        = Raises (AttributeError "NoneType" "key"))
  /\ (lookup t key = None ->
        fst (DBDB.get_left fuel key db) = Raises KeyError
        /\ fst (DBDB.get_right fuel key db) = Raises KeyError).
Proof.
  intros Hreach Ht Hfuel. destruct (reachable_inv db Hreach) as (tc & tm & I).
  rewrite (inv_holds db tc tm t I Ht) in *.
  rewrite (get_left_outcome fuel key db tc tm I Hfuel).
  rewrite (get_right_outcome fuel key db tc tm I Hfuel).
  unfold child_outcome. split; [ | split].
  - intros r ->. reflexivity.
  - intros l ->. reflexivity.
  - intros Hn. apply children_none in Hn. now rewrite Hn.
Qed.

(** C8, delete.  On an open database [delete] raises for every key, the
    attribute error of the method [BinaryTree] does not have (the
    unsupported operation of the specification), and leaves the handle, its
    tree and its file as they were. *)
Theorem delete_unsupported db key :
  Storage.closed (DBDB._storage db) = false ->
  DBDB.delete key db = (Raises (AttributeError "BinaryTree" "delete"), db).
Proof.
  intros Hopen. unfold DBDB.delete, DBDB._assert_not_closed.
  monad_unfold. now rewrite Hopen.
Qed.

Lemma closed_call {A} (m : M BinaryTree.t A) db :
  Storage.closed (DBDB._storage db) = true ->
  (DBDB._assert_not_closed ;;; DBDB.on_tree m) db
  = (Raises (ValueError "Database closed."), db).
Proof.
  intros Hcl. unfold DBDB._assert_not_closed. monad_unfold.
  now rewrite Hcl.
Qed.

(** C9, closed handle.  After [close], every operation of the facade but
    [close] raises [ValueError('Database closed.')] and changes nothing;
    [close] itself has no such check and returns again. *)
Theorem closed_handle_rejects db fuel depth key value :
  let dbc := snd (DBDB.close db) in
  DBDB.get fuel key dbc = (Raises (ValueError "Database closed."), dbc)
  /\ DBDB.set fuel key value dbc
     = (Raises (ValueError "Database closed."), dbc)
  /\ DBDB.commit depth dbc = (Raises (ValueError "Database closed."), dbc)
  /\ DBDB.get_min fuel dbc = (Raises (ValueError "Database closed."), dbc)
  /\ DBDB.get_left fuel key dbc
     = (Raises (ValueError "Database closed."), dbc)
  /\ DBDB.get_right fuel key dbc
     = (Raises (ValueError "Database closed."), dbc)
  /\ DBDB.chop fuel key dbc = (Raises (ValueError "Database closed."), dbc)
  /\ DBDB.delete key dbc = (Raises (ValueError "Database closed."), dbc)
  /\ DBDB.close dbc = (Returns tt, dbc).
Proof.
  cbv zeta. rewrite close_call. cbn [snd].
  set (dbc := DBDB.mk _).
  assert (Hcl : Storage.closed (DBDB._storage dbc) = true) by reflexivity.
  unfold DBDB.get, DBDB.set, DBDB.commit, DBDB.get_min, DBDB.get_left,
    DBDB.get_right, DBDB.chop.
  rewrite !closed_call by exact Hcl.
  repeat split.
Qed.

Lemma leftmost_node l k v r : exists x, leftmost (Node l k v r) = Some x.
Proof.
  revert k v r. induction l as [ | ll IHl lk lv lr _]; intros k v r.
  - now exists v.
  - destruct (IHl lk lv lr) as (x & Hx). exists x. exact Hx.
Qed.

(** C10, minimum of the empty database.  On an open handle whose root
    reference resolves to no node, [get_min] raises the [AttributeError] of
    [node.left_ref] on [None], whatever the fuel, and not [KeyError]; such
    is every handle connected to a file whose root address is 0; on a
    reachable database whose tree is not empty [get_min] returns the value
    of the leftmost node. *)
Theorem get_min_empty_raises :
  (forall db fuel,
     Storage.closed (DBDB._storage db) = false ->
     BinaryTree._follow (BinaryTree._tree_ref (DBDB._tree db))
                        (DBDB._storage db) = Returns None ->
     DBDB.get_min fuel db
     = (Raises (AttributeError "NoneType" "left_ref"), db))
  /\ (forall f db fuel,
        connect f = Returns db ->
        Storage.get_root_address (DBDB._storage db) = Returns 0 ->
        DBDB.get_min fuel db
        = (Raises (AttributeError "NoneType" "left_ref"), db))
  /\ (forall db t fuel,
        reachable db -> holds db t -> t <> Leaf ->
        (height t <= fuel)%nat ->
        exists v, leftmost t = Some v
                  /\ DBDB.get_min fuel db = (Returns (Some v), db)).
Proof.
  split; [ | split].
  - intros db fuel Hopen Hf.
    rewrite (get_min_call fuel db Hopen), Hf. reflexivity.
  - intros f db fuel Hc Hroot.
    destruct (connect_empty_root f db Hc Hroot) as (Hopen & Hf).
    rewrite (get_min_call fuel db Hopen), Hf. reflexivity.
  - intros db t fuel Hreach Ht Hne Hfuel.
    destruct (reachable_inv db Hreach) as (tc & tm & I).
    rewrite (inv_holds db tc tm t I Ht) in *.
    pose proof (get_min_outcome fuel db tc tm I Hfuel) as O.
    rewrite get_min_call in * by apply I. cbn [fst] in O.
    destruct tm as [ | l k v r]; [congruence | ].
    destruct (leftmost_node l k v r) as (x & Hx).
    exists x. split; [exact Hx | ]. now rewrite O, Hx.
Qed.

End Properties.

(** * The properties on the runs of the test block *)

Lemma reachable_set_all `{Pickle} fuel calls : forall db,
  reachable db -> reachable (snd (set_all fuel calls db)).
Proof.
  induction calls as [ | [k v] calls IH]; intros db Hreach; [exact Hreach | ].
  cbn [set_all]. unfold bind.
  pose proof (reach_set db fuel k v Hreach) as Hstep.
  destruct (DBDB.set fuel k v db) as [[ [] | e | ] db1]; cbn [snd] in *;
    auto.
Qed.

Lemma new_db_reachable `{Pickle} : reachable new_db.
Proof. apply reach_new. exact connect_new. Qed.

Lemma after_calls_reachable `{Pickle} fuel calls :
  reachable (after_calls fuel calls).
Proof. apply reachable_set_all, new_db_reachable. Qed.

Lemma after_calls_holds `{Pickle} fuel calls :
  (length calls < fuel)%nat ->
  holds (after_calls fuel calls) (insert_all Leaf calls).
Proof.
  intros Hfuel.
  destruct (set_all_call calls new_db Leaf Leaf fuel (inv_new _ connect_new))
    as (_ & I & _); [simpl; lia | ].
  apply I.
Qed.

Lemma committed_run_reachable `{Pickle} fuel calls db :
  committed_run fuel calls = Returns db -> reachable db.
Proof.
  intros E.
  apply (reach_reopen (snd (DBDB.commit fuel (after_calls fuel calls))) db);
    [ | exact E].
  apply reach_commit, after_calls_reachable.
Qed.

(** [struct.pack("!Q", 4096)] is [b'\x00\x00\x00\x00\x00\x00\x10\x00'],
    and a new file is one superblock of zero bytes. *)
Example pack_4096 :
  struct.pack 4096 = Returns [x00; x00; x00; x00; x00; x00; x10; x00]
  /\ struct.unpack [x00; x00; x00; x00; x00; x00; x10; x00] = Returns 4096
  /\ struct.pack (2 ^ 64) = Raises struct_error
  /\ file_of new_db = repeat x00 4096.
Proof. repeat split. Qed.

(** The assertions of the first example of the test block, with the
    threshold 15 for 15.5. *)
Example test4_assertions :
  let db := handle (committed_run 10 test4_calls) in
  fst (DBDB.get 10 16 db) = Returns (Some "big"%string)
  /\ fst (DBDB.get_min 10 db) = Returns (Some "sml"%string)
  /\ fst (DBDB.get_left 10 16 db) = Returns (15%Z, Some "med"%string)
  /\ fst (DBDB.get_left 10 15 db) = Returns (14%Z, Some "sml"%string)
  /\ fst (DBDB.chop 10 15 db)
     = Returns [(15%Z, Some "med"%string); (14%Z, Some "sml"%string)].
Proof. vm_compute. repeat split. Qed.

(** [db.set(16, "really big")] without [commit], then [close]: after a new
    [connect], [get(16)] is still ["big"]. *)
Example test4_uncommitted :
  let db := handle (committed_run 10 test4_calls) in
  let db' := snd (DBDB.close (snd (DBDB.set 10 16 "really big" db))) in
  fst (DBDB.get 10 16 (handle (connect (file_of db'))))
  = Returns (Some "big"%string).
Proof. vm_compute. reflexivity. Qed.

(** The assertions of the second example of the test block. *)
Example test5_assertions :
  let db := handle (committed_run 20 test5_calls) in
  fst (DBDB.get_left 10 8 db) = Returns (3%Z, Some "three"%string)
  /\ fst (DBDB.get_right 10 8 db) = Returns (10%Z, Some "ten"%string)
  /\ fst (DBDB.get_left 10 3 db) = Returns (1%Z, Some "one"%string)
  /\ fst (DBDB.get_right 10 3 db) = Returns (6%Z, Some "six"%string)
  /\ fst (DBDB.get_left 10 6 db) = Returns (4%Z, Some "four"%string)
  /\ fst (DBDB.get_right 10 6 db) = Returns (7%Z, Some "seven"%string)
  /\ fst (DBDB.get_right 10 10 db) = Returns (14%Z, Some "fourteen"%string)
  /\ fst (DBDB.get_left 10 14 db) = Returns (13%Z, Some "thirteen"%string)
  /\ fst (DBDB.chop 10 6 db)
     = Returns [(3%Z, Some "three"%string); (1%Z, Some "one"%string);
                (6%Z, Some "six"%string); (4%Z, Some "four"%string)].
Proof. vm_compute. repeat split. Qed.


(** C1, a run whose [commit] raises.  With 995 frames left for [_insert]
    and for [store], the [set] calls of the keys 1 to 332 on a new database
    all return and build a chain of 332 nodes; [commit], three frames for
    every level of the chain, raises [RecursionError] and holds the lock;
    [close] returns, and after a new [connect] to the file [get(1)] raises
    [KeyError], although the last [set] of the key 1 gave it the value
    ['v']. *)
Lemma roundtrip_durability_counterexample :
  let calls := increasing 332 in
  let db1 := snd (set_all 995 calls new_db) in
  let db2 := snd (DBDB.commit 995 db1) in
  let db3 := snd (DBDB.close db2) in
  fst (set_all 995 calls new_db) = Returns tt
  /\ fst (DBDB.commit 995 db1) = Raises RecursionError
  /\ Storage.locked (DBDB._storage db2) = true
  /\ fst (DBDB.close db2) = Returns tt
  /\ In 1%Z (map fst calls)
  /\ last_set calls 1 = Some "v"%string
  /\ exists db4,
       connect (file_of db3) = Returns db4
       /\ fst (DBDB.get 995 1 db4) = Raises KeyError.
Proof.
  cbv zeta.
  split; [vm_compute; reflexivity | ].
  split; [vm_compute; reflexivity | ].
  split; [vm_compute; reflexivity | ].
  split; [vm_compute; reflexivity | ].
  split; [left; reflexivity | ].
  split; [vm_compute; reflexivity | ].
  eexists. split; [vm_compute; reflexivity | ].
  vm_compute. reflexivity.
Qed.

Lemma chop_correct_witness :
  let res := DBDB.chop 10 6 (after_calls 10 test5_calls) in
  exists all,
    traverse_root 10 (snd res) = Returns all
    /\ match all with
       | [] => fst res = Raises (UnboundLocalError "parent_node")
       | _ :: _ =>
           exists out,
             fst res = Returns out
             /\ Permutation out (filter (at_most 6) all)
       end.
Proof.
  apply (chop_correct (after_calls 10 test5_calls)
                      (insert_all Leaf test5_calls) 6 10).
  - apply after_calls_reachable.
  - apply after_calls_holds. simpl. lia.
  - simpl. lia.
Defined.

(** C2 and C6 at the input that fails: [chop] on a new database. *)
Example chop_empty_raises :
  fst (DBDB.chop 10 6 new_db) = Raises (UnboundLocalError "parent_node").
Proof. vm_compute. reflexivity. Qed.

Lemma uncommitted_set_not_durable_witness :
  let db := handle (committed_run 10 test4_calls) in
  let db2 := snd (DBDB.close (snd (DBDB.set 10 16 "really big" db))) in
  file_of db2 = file_of db
  /\ exists tc db3,
       committed (file_of db) tc
       /\ connect (file_of db2) = Returns db3
       /\ connect (file_of db) = Returns db3
       /\ forall fuel' key', (height tc <= fuel')%nat ->
            fst (DBDB.get fuel' key' db3) = found (lookup tc key').
Proof.
  destruct uncommitted_set_not_durable as (Hfile & Hget).
  split.
  - apply (Hfile (handle (committed_run 10 test4_calls))).
  - apply (Hget (handle (committed_run 10 test4_calls)) 10%nat 16%Z
                "really big"%string).
    apply (committed_run_reachable 10 test4_calls).
    vm_compute. reflexivity.
Defined.

Lemma ordering_invariant_witness :
  let db := after_calls 10 test5_calls in
  (exists t, holds db t)
  /\ (forall t, holds db t -> bst t)
  /\ (exists t, committed (file_of db) t)
  /\ (forall t, committed (file_of db) t -> bst t).
Proof.
  apply (ordering_invariant (after_calls 10 test5_calls)).
  apply after_calls_reachable.
Defined.


(** C5, two [set] calls that raise.  With 995 frames left for [_insert],
    the [set] calls of the keys 1 to 995 on a new database all return and
    build a chain of 995 nodes; [set(996, 'a')] on it raises
    [RecursionError], so does [set(996, 'b')] after it, and [get(996)]
    then raises [KeyError]: the tree has no entry for the key. *)
Lemma no_duplicate_keys_counterexample :
  let db := after_calls 995 (increasing 995) in
  let db1 := snd (DBDB.set 995 996 "a" db) in
  let db2 := snd (DBDB.set 995 996 "b" db1) in
  fst (set_all 995 (increasing 995) new_db) = Returns tt
  /\ fst (DBDB.set 995 996 "a" db) = Raises RecursionError
  /\ fst (DBDB.set 995 996 "b" db1) = Raises RecursionError
  /\ fst (DBDB.get 995 996 db2) = Raises KeyError.
Proof.
  cbv zeta.
  split; [vm_compute; reflexivity | ].
  split; [vm_compute; reflexivity | ].
  split; vm_compute; reflexivity.
Qed.

Lemma empty_tree_queries_witness :
  BinaryTree.traverse_in_order 10 (DBDB._storage new_db) None = Returns []
  /\ BinaryTree._follow (BinaryTree._tree_ref (DBDB._tree new_db))
                        (DBDB._storage new_db) = Returns None
  /\ fst (DBDB.chop 10 6 new_db) = Raises (UnboundLocalError "parent_node").
Proof.
  apply (empty_tree_queries [] new_db 10 6).
  - exact connect_new.
  - vm_compute. reflexivity.
Defined.

Lemma missing_child_raises_witness :
  fst (DBDB.get_left 10 14 (after_calls 10 test4_calls))
  = Raises (AttributeError "NoneType" "key")
  /\ fst (DBDB.get_right 10 16 (after_calls 10 test4_calls))
     = Raises (AttributeError "NoneType" "key")
  /\ fst (DBDB.get_left 10 17 (after_calls 10 test4_calls)) = Raises KeyError
  /\ fst (DBDB.get_right 10 17 (after_calls 10 test4_calls))
     = Raises KeyError.
Proof.
  assert (Hreach := after_calls_reachable 10 test4_calls).
  assert (Hholds : holds (after_calls 10 test4_calls)
                         (insert_all Leaf test4_calls))
    by (apply after_calls_holds; simpl; lia).
  assert (Hfuel : (height (insert_all Leaf test4_calls) <= 10)%nat)
    by (simpl; lia).
  split; [ | split].
  - apply (missing_child_raises _ _ 14 10 Hreach Hholds Hfuel) with (r := Leaf).
    reflexivity.
  - destruct (missing_child_raises _ _ 16 10 Hreach Hholds Hfuel)
      as (_ & Hright & _).
    apply Hright with (l := insert_all Leaf [(15, "med"%string);
                                            (14, "sml"%string)]%Z).
    reflexivity.
  - apply (missing_child_raises _ _ 17 10 Hreach Hholds Hfuel). reflexivity.
Defined.

(** C7 as the specification states it fails here: the node of key 14 has no
    left child, and [get_left(14)] does not raise [KeyError]. *)
Lemma missing_child_counterexample :
  children (insert_all Leaf test4_calls) 14 = Some (Leaf, Leaf)
  /\ fst (DBDB.get_left 10 14 (after_calls 10 test4_calls))
     = Raises (AttributeError "NoneType" "key")
  /\ fst (DBDB.get_left 10 14 (after_calls 10 test4_calls))
     <> Raises KeyError.
Proof.
  split; [reflexivity | ].
  split; [vm_compute; reflexivity | vm_compute; discriminate].
Qed.

Lemma delete_unsupported_witness :
  DBDB.delete 16 new_db
  = (Raises (AttributeError "BinaryTree" "delete"), new_db).
Proof.
  apply (delete_unsupported new_db 16). reflexivity.
Defined.

(** C9 as the specification states it fails here: [close] on a closed
    handle returns. *)
Lemma closed_handle_counterexample :
  Storage.closed (DBDB._storage (snd (DBDB.close new_db))) = true
  /\ fst (DBDB.close (snd (DBDB.close new_db))) = Returns tt
  /\ fst (DBDB.close (snd (DBDB.close new_db)))
     <> Raises (ValueError "Database closed.").
Proof.
  split; [reflexivity | ].
  split; [reflexivity | discriminate].
Qed.

Lemma get_min_empty_raises_witness :
  DBDB.get_min 10 new_db
  = (Raises (AttributeError "NoneType" "left_ref"), new_db)
  /\ exists v,
       leftmost (insert_all Leaf test4_calls) = Some v
       /\ DBDB.get_min 10 (after_calls 10 test4_calls)
          = (Returns (Some v), after_calls 10 test4_calls).
Proof.
  destruct get_min_empty_raises as (_ & Hempty & Hmin).
  split.
  - apply (Hempty [] new_db 10%nat);
      [exact connect_new | vm_compute; reflexivity].
  - apply (Hmin (after_calls 10 test4_calls) (insert_all Leaf test4_calls)
                10%nat).
    + apply after_calls_reachable.
    + apply after_calls_holds. simpl. lia.
    + discriminate.
    + simpl. lia.
Defined.

(** * Further properties: the storage layer *)

Lemma from_big_endian_bound bs :
  struct.from_big_endian bs < 256 ^ N.of_nat (length bs).
Proof.
  induction bs as [ | b bs IH] using rev_ind.
  - vm_compute. reflexivity.
  - rewrite from_big_endian_snoc, length_app. cbn [length].
    replace (N.of_nat (length bs + 1)) with (N.succ (N.of_nat (length bs)))
      by lia.
    rewrite N.pow_succ_r'.
    pose proof (Byte.to_N_bounded b). lia.
Qed.

Lemma byte_of_N_to_N b : struct.byte_of_N (Byte.to_N b) = b.
Proof.
  unfold struct.byte_of_N.
  pose proof (Byte.to_N_bounded b).
  rewrite N.mod_small by lia.
  now rewrite Byte.of_to_N.
Qed.

Lemma byte_of_N_mod n : struct.byte_of_N (n mod 256) = struct.byte_of_N n.
Proof.
  unfold struct.byte_of_N. now rewrite N.Div0.mod_mod.
Qed.

Lemma big_endian_from_big_endian bs :
  struct.big_endian (length bs) (struct.from_big_endian bs) = bs.
Proof.
  induction bs as [ | b bs IH] using rev_ind; [reflexivity | ].
  rewrite from_big_endian_snoc, length_app. cbn [length].
  rewrite Nat.add_1_r. cbn [struct.big_endian].
  pose proof (Byte.to_N_bounded b) as Hb.
  replace ((struct.from_big_endian bs * 256 + Byte.to_N b) / 256)
    with (struct.from_big_endian bs).
  - rewrite IH. f_equal. f_equal.
    rewrite <- byte_of_N_mod.
    replace ((struct.from_big_endian bs * 256 + Byte.to_N b) mod 256)
      with (Byte.to_N b).
    + apply byte_of_N_to_N.
    + rewrite N.add_comm, N.Div0.mod_add. symmetry. apply N.mod_small. lia.
  - rewrite N.add_comm, N.div_add by lia.
    rewrite N.div_small by lia. reflexivity.
Qed.

Lemma read_at_record pre d post lk :
  N.of_nat (length d) < 2 ^ 64 ->
  Storage.read (N.of_nat (length pre))
    (Storage.mk (pre ++ struct.big_endian 8 (N.of_nat (length d)) ++ d ++ post)
                lk false)
  = Returns d.
Proof.
  intros Hd.
  unfold Storage.read, Storage._read_integer, Storage._bytes_to_integer.
  cbn [Storage._f Storage.f_closed].
  replace Storage.INTEGER_LENGTH
    with (N.of_nat (length (struct.big_endian 8 (N.of_nat (length d)))))
    by (now rewrite big_endian_length).
  rewrite read_at_split.
  rewrite (unpack_pack _ _ (pack_returns _ Hd)). cbn [obind].
  f_equal.
  replace (N.of_nat (length pre)
           + N.of_nat (length (struct.big_endian 8 (N.of_nat (length d)))))
    with (N.of_nat (length (pre ++ struct.big_endian 8 (N.of_nat (length d)))))
    by (rewrite length_app; lia).
  rewrite (app_assoc pre). apply read_at_split.
Qed.

(** X1, records.  On an open file, [Storage.write] appends the eight
    bytes of the length, most significant first, and then the payload,
    returns the offset the file ended at, and keeps the lock;
    [Storage.read] at that offset gives the payload back, also after a
    later [write], whose address is greater. *)
Theorem write_read_roundtrip st d1 d2 :
  Storage.f_closed st = false ->
  N.of_nat (length d1) < 2 ^ 64 -> N.of_nat (length d2) < 2 ^ 64 ->
  let a1 := PyFile.size (Storage._f st) in
  let st1 := snd (Storage.write d1 st) in
  let a2 := PyFile.size (Storage._f st1) in
  let st2 := snd (Storage.write d2 st1) in
  fst (Storage.write d1 st) = Returns a1
  /\ fst (Storage.write d2 st1) = Returns a2
  /\ a1 + 8 + N.of_nat (length d1) = a2
  /\ Storage._f st2
     = Storage._f st
       ++ struct.big_endian 8 (N.of_nat (length d1)) ++ d1
       ++ struct.big_endian 8 (N.of_nat (length d2)) ++ d2
  /\ Storage.read a1 st1 = Returns d1
  /\ Storage.read a1 st2 = Returns d1
  /\ Storage.read a2 st2 = Returns d2
  /\ Storage.locked st2 = true
  /\ Storage.f_closed st2 = false.
Proof.
  intros Hopen H1 H2. destruct st as [F lk cl].
  cbn [Storage.f_closed] in Hopen. subst cl. cbv zeta.
  rewrite (write_returns d1 F lk H1). cbn [fst snd Storage._f].
  rewrite (write_returns d2 _ true H2). cbn [fst snd Storage._f].
  set (h1 := struct.big_endian 8 (N.of_nat (length d1))).
  set (h2 := struct.big_endian 8 (N.of_nat (length d2))).
  assert (Hh1 : length h1 = 8%nat) by apply big_endian_length.
  split; [reflexivity | ]. split; [reflexivity | ].
  split; [unfold PyFile.size; rewrite !length_app, Hh1; lia | ].
  split; [now rewrite <- !app_assoc | ].
  split.
  { unfold PyFile.size.
    replace (F ++ h1 ++ d1) with (F ++ h1 ++ d1 ++ [])
      by now rewrite app_nil_r.
    now apply read_at_record. }
  split.
  { unfold PyFile.size. rewrite <- !app_assoc. now apply read_at_record. }
  split; [ | split; reflexivity].
  unfold PyFile.size.
  replace ((F ++ h1 ++ d1) ++ h2 ++ d2) with ((F ++ h1 ++ d1) ++ h2 ++ d2 ++ [])
    by now rewrite app_nil_r.
  now apply read_at_record.
Qed.

Lemma write_read_roundtrip_witness :
  let st := Storage.mk (repeat x00 4096) false false in
  let d1 := [x61; x62; x63] in
  let d2 := [x64] in
  let st1 := snd (Storage.write d1 st) in
  let st2 := snd (Storage.write d2 st1) in
  fst (Storage.write d1 st) = Returns 4096
  /\ fst (Storage.write d2 st1) = Returns 4107
  /\ Storage.read 4096 st2 = Returns d1
  /\ Storage.read 4107 st2 = Returns d2.
Proof.
  cbv zeta.
  destruct (write_read_roundtrip (Storage.mk (repeat x00 4096) false false)
              [x61; x62; x63] [x64])
    as (E1 & E2 & _ & _ & _ & R1 & R2 & _);
    [reflexivity | vm_compute; reflexivity .. | ].
  cbv zeta in *. repeat split; assumption.
Defined.

(** X2, integers.  [_integer_to_bytes] and [_bytes_to_integer] are inverse
    of each other between the integers below 2^64 and the byte strings of
    length 8; outside them [_integer_to_bytes] and [_bytes_to_integer]
    raise [struct.error]. *)
Theorem integer_bytes_roundtrip :
  (forall n, n < 2 ^ 64 ->
     exists bs, Storage._integer_to_bytes n = Returns bs
                /\ length bs = 8%nat
                /\ Storage._bytes_to_integer bs = Returns n)
  /\ (forall bs, length bs = 8%nat ->
        exists n, Storage._bytes_to_integer bs = Returns n
                  /\ n < 2 ^ 64
                  /\ Storage._integer_to_bytes n = Returns bs)
  /\ (forall n, 2 ^ 64 <= n ->
        Storage._integer_to_bytes n = Raises struct_error)
  /\ (forall bs, length bs <> 8%nat ->
        Storage._bytes_to_integer bs = Raises struct_error).
Proof.
  unfold Storage._integer_to_bytes, Storage._bytes_to_integer.
  repeat split.
  - intros n Hn. exists (struct.big_endian 8 n).
    split; [now apply pack_returns | ].
    split; [apply big_endian_length | ].
    apply (unpack_pack n), pack_returns, Hn.
  - intros bs Hlen. exists (struct.from_big_endian bs).
    assert (Hb : struct.from_big_endian bs < 2 ^ 64).
    { pose proof (from_big_endian_bound bs) as Hb. rewrite Hlen in Hb.
      exact Hb. }
    split; [unfold struct.unpack; now rewrite Hlen | ].
    split; [exact Hb | ].
    rewrite (pack_returns _ Hb). f_equal.
    rewrite <- Hlen. apply big_endian_from_big_endian.
  - intros n Hn. now apply pack_raises.
  - intros bs Hlen. unfold struct.unpack.
    apply Nat.eqb_neq in Hlen. now rewrite Hlen.
Qed.

(** X3, the root address.  On an open file, [commit_root_address] of an
    address below 2^64 returns and releases the lock; [get_root_address]
    then returns that address; the bytes of the file from offset 8 on are
    the ones it had, and every [read] at an address of the file from 8 on
    answers as before. *)
Theorem root_address_roundtrip st a :
  Storage.f_closed st = false ->
  a < 2 ^ 64 ->
  let st' := snd (Storage.commit_root_address a st) in
  fst (Storage.commit_root_address a st) = Returns tt
  /\ Storage.get_root_address st' = Returns a
  /\ Storage.locked st' = false
  /\ Storage.f_closed st' = false
  /\ skipn 8 (Storage._f st') = skipn 8 (Storage._f st)
  /\ forall address,
       8 <= address -> address <= PyFile.size (Storage._f st) ->
       Storage.read address st' = Storage.read address st.
Proof.
  intros Hopen Ha. destruct st as [F lk cl].
  cbn [Storage.f_closed] in Hopen. subst cl. cbv zeta.
  rewrite (commit_root_address_returns a F lk Ha). cbn [fst snd].
  set (hdr := struct.big_endian 8 a).
  assert (Hh : length hdr = 8%nat) by apply big_endian_length.
  split; [reflexivity | ].
  split; [now apply get_root_address_after_commit | ].
  split; [reflexivity | ]. split; [reflexivity | ].
  assert (Hskip : forall n, (8 <= n)%nat ->
            skipn n (hdr ++ skipn 8 F) = skipn n F).
  { intros n Hn. rewrite skipn_app, Hh.
    rewrite (skipn_all2 hdr) by lia. rewrite skipn_skipn. cbn [app].
    f_equal. lia. }
  split; [cbn [Storage._f]; now apply Hskip | ].
  intros address Haddr _.
  unfold Storage.read, Storage._read_integer, PyFile.read_at.
  cbn [Storage._f Storage.f_closed].
  rewrite !Hskip by (unfold Storage.INTEGER_LENGTH; lia). reflexivity.
Qed.

Lemma root_address_roundtrip_witness :
  let st := snd (Storage.write [x61]
                   (Storage.mk (repeat x00 4096) false false)) in
  let st' := snd (Storage.commit_root_address 4096 st) in
  Storage.get_root_address st = Returns 0
  /\ Storage.get_root_address st' = Returns 4096
  /\ Storage.locked st' = false
  /\ Storage.read 4096 st' = Returns [x61].
Proof.
  cbv zeta.
  destruct (root_address_roundtrip
              (snd (Storage.write [x61]
                      (Storage.mk (repeat x00 4096) false false))) 4096)
    as (_ & Hroot & Hlock & _ & _ & Hread);
    [reflexivity | vm_compute; reflexivity | ].
  cbv zeta in *.
  split; [vm_compute; reflexivity | ].
  split; [exact Hroot | ]. split; [exact Hlock | ].
  rewrite Hread by (vm_compute; discriminate). vm_compute. reflexivity.
Defined.

Lemma storage_init_file f :
  Storage.__init__ f
  = (Returns tt,
     Storage.mk (f ++ repeat x00 (4096 - length f)) false false).
Proof.
  unfold Storage.__init__, Storage._ensure_superblock, Storage.lock,
    Storage.unlock, Storage.file_object.
  monad_unfold. cbn [Storage.locked Storage._f Storage.f_closed negb].
  destruct (PyFile.size f <? Storage.SUPERBLOCK_SIZE) eqn:E.
  - cbn [Storage.locked Storage._f Storage.f_closed].
    rewrite write_at_end. do 3 f_equal.
    apply N.ltb_lt in E.
    unfold PyFile.size, Storage.SUPERBLOCK_SIZE in *. f_equal. lia.
  - cbn [Storage.locked Storage._f Storage.f_closed].
    apply N.ltb_ge in E.
    replace (4096 - length f)%nat with 0%nat
      by (unfold PyFile.size, Storage.SUPERBLOCK_SIZE in *; lia).
    cbn [repeat]. now rewrite app_nil_r.
Qed.

Lemma get_root_address_returns F lk :
  8 <= PyFile.size F ->
  exists a, Storage.get_root_address (Storage.mk F lk false) = Returns a
            /\ a < 2 ^ 64
            /\ struct.big_endian 8 a = firstn 8 F.
Proof.
  intros H8.
  unfold Storage.get_root_address, Storage._read_integer,
    Storage._bytes_to_integer, PyFile.read_at.
  cbn [Storage._f Storage.f_closed]. change (N.to_nat 0) with 0%nat. rewrite skipn_O.
  change (N.to_nat Storage.INTEGER_LENGTH) with 8%nat.
  assert (Hlen : length (firstn 8 F) = 8%nat)
    by (rewrite length_firstn; unfold PyFile.size in H8; lia).
  exists (struct.from_big_endian (firstn 8 F)).
  split; [unfold struct.unpack; now rewrite Hlen | ].
  split.
  - pose proof (from_big_endian_bound (firstn 8 F)) as Hb.
    rewrite Hlen in Hb. exact Hb.
  - rewrite <- Hlen at 1. apply big_endian_from_big_endian.
Qed.

(** X4, connect.  [connect] never fails: whatever the content [f] of the
    file, it returns an open handle that does not hold the lock; the file is
    [f] followed by the zero bytes that bring it to the size of the
    superblock, if it was shorter; the root reference of the handle is the
    root address read in the first eight bytes, unresolved. *)
Theorem connect_total `{Pickle} f :
  exists db a,
    connect f = Returns db
    /\ file_of db = f ++ repeat x00 (4096 - length f)
    /\ Storage.SUPERBLOCK_SIZE <= PyFile.size (file_of db)
    /\ Storage.locked (DBDB._storage db) = false
    /\ Storage.closed (DBDB._storage db) = false
    /\ Storage.get_root_address (DBDB._storage db) = Returns a
    /\ BinaryTree._tree_ref (DBDB._tree db) = mkBinaryNodeRef None a.
Proof.
  set (F := f ++ repeat x00 (4096 - length f)).
  assert (Hsz : Storage.SUPERBLOCK_SIZE <= PyFile.size F).
  { unfold F, PyFile.size, Storage.SUPERBLOCK_SIZE.
    rewrite length_app, repeat_length. lia. }
  destruct (get_root_address_returns F false) as (a & Ha & _).
  { unfold Storage.SUPERBLOCK_SIZE in Hsz. lia. }
  exists (DBDB.mk (BinaryTree.mk (Storage.mk F false false)
                                 (mkBinaryNodeRef None a))), a.
  split.
  - unfold connect, DBDB.__init__. rewrite storage_init_file. fold F.
    unfold BinaryTree.__init__.
    now rewrite (refresh_tree_ref_spec F false _ a Ha).
  - repeat split; assumption.
Qed.

(** * Further properties: references *)

(** Induction on a reference and the nodes it holds in memory. *)
Section ReferenceInduction.
Variables (P : BinaryNodeRef -> Prop) (Q : BinaryNode -> Prop).
Hypothesis Hnone : forall a, P (mkBinaryNodeRef None a).
Hypothesis Hsome : forall node a, Q node -> P (mkBinaryNodeRef (Some node) a).
Hypothesis Hnode : forall l k v r, P l -> P r -> Q (mkBinaryNode l k v r).

Fixpoint reference_ind (ref : BinaryNodeRef) : P ref :=
  match ref with
  | mkBinaryNodeRef None a => Hnone a
  | mkBinaryNodeRef (Some node) a => Hsome node a (node_ind node)
  end
with node_ind (node : BinaryNode) : Q node :=
  match node with
  | mkBinaryNode l k v r => Hnode l k v r (reference_ind l) (reference_ind r)
  end.

End ReferenceInduction.

Lemma appends_refl st : appends st st.
Proof. exists []. now rewrite app_nil_r. Qed.

Lemma appends_trans st1 st2 st3 :
  appends st1 st2 -> appends st2 st3 -> appends st1 st3.
Proof.
  intros (X & E1 & C1) (Y & E2 & C2). exists (X ++ Y).
  rewrite E2, E1, app_assoc. split; congruence.
Qed.

(** On a closed file [write] raises [ValueError] and changes nothing. *)
Lemma write_closed data F lk :
  exists message,
    Storage.write data (Storage.mk F lk true)
    = (Raises (ValueError message), Storage.mk F lk true).
Proof.
  unfold Storage.write, Storage.lock, Storage.file_object. monad_unfold.
  destruct lk; cbn; eauto.
Qed.

Lemma write_appends data st : appends st (snd (Storage.write data st)).
Proof.
  destruct st as [F lk [ | ]].
  { destruct (write_closed data F lk) as (message & ->). apply appends_refl. }
  destruct (N.lt_ge_cases (N.of_nat (length data)) (2 ^ 64)) as [Hd | Hd].
  - rewrite (write_returns data F lk Hd). cbn [snd]. now eexists.
  - rewrite (write_raises data F lk Hd). cbn [snd].
    exists []. cbn. now rewrite app_nil_r.
Qed.

Lemma value_store_appends vr st : appends st (snd (ValueRef.store vr st)).
Proof.
  destruct vr as [[v | ] a]; unfold ValueRef.store;
    cbn [ValueRef._referent ValueRef._address]; [ | apply appends_refl].
  destruct (a =? 0); [ | apply appends_refl].
  unfold bind, ret. pose proof (write_appends (ValueRef.referent_to_bytes v) st).
  destruct (Storage.write _ st) as [[a' | e | ] st']; assumption.
Qed.

Section StoreAppends.
Context `{Pickle}.

Lemma store_appends ref : forall depth st,
  appends st (snd (BinaryNodeRef.store depth ref st)).
Proof.
  apply (reference_ind
           (fun ref => forall depth st,
                appends st (snd (BinaryNodeRef.store depth ref st)))
           (fun node => forall depth st,
                appends st (snd (BinaryNodeRef.store_refs depth node st)))).
  - intros a depth st. apply appends_refl.
  - intros node a IH depth st. cbn [BinaryNodeRef.store].
    destruct (a =? 0); [ | apply appends_refl].
    destruct depth as [ | [ | [ | depth]]]; try apply appends_refl.
    unfold bind, ret. specialize (IH depth st).
    destruct (BinaryNodeRef.store_refs depth node st) as [[node' | e | ] st1];
      cbn [snd] in *; try assumption.
    pose proof (write_appends (BinaryNodeRef.referent_to_bytes node') st1).
    destruct (Storage.write _ st1) as [[a' | e | ] st2]; cbn [snd] in *;
      eapply appends_trans; eassumption.
  - intros l k v r IHl IHr depth st. cbn [BinaryNodeRef.store_refs].
    unfold bind, ret.
    pose proof (value_store_appends v st) as Hv.
    destruct (ValueRef.store v st) as [[v' | e | ] st1]; cbn [snd] in *;
      try assumption.
    specialize (IHl depth st1).
    destruct (BinaryNodeRef.store depth l st1) as [[l' | e | ] st2];
      cbn [snd] in *; try (eapply appends_trans; eassumption).
    specialize (IHr depth st2).
    destruct (BinaryNodeRef.store depth r st2) as [[r' | e | ] st3];
      cbn [snd] in *;
      eapply appends_trans; try eassumption;
      eapply appends_trans; eassumption.
Qed.

Lemma appends_size st st' :
  appends st st' -> PyFile.size (Storage._f st) <= PyFile.size (Storage._f st').
Proof.
  intros (X & -> & _). rewrite size_app. lia.
Qed.

(** X5, values.  Storing a value that has no address yet, on an open
    file that is not empty, gives it the offset the file ended at; the
    reference with that address alone reads the value back from the file;
    storing the reference again, or a reference that has an address or
    holds nothing, writes nothing. *)
Theorem value_store_get_roundtrip st v :
  Storage.f_closed st = false ->
  PyFile.size (Storage._f st) <> 0 ->
  N.of_nat (length (ValueRef.referent_to_bytes v)) < 2 ^ 64 ->
  let a := PyFile.size (Storage._f st) in
  let st' := snd (ValueRef.store (ValueRef.mk (Some v) 0) st) in
  fst (ValueRef.store (ValueRef.mk (Some v) 0) st)
  = Returns (ValueRef.mk (Some v) a)
  /\ ValueRef.get (ValueRef.mk None a) st' = Returns (Some v)
  /\ ValueRef.get (ValueRef.mk (Some v) a) st' = Returns (Some v)
  /\ ValueRef.store (ValueRef.mk (Some v) a) st'
     = (Returns (ValueRef.mk (Some v) a), st')
  /\ ValueRef.store (ValueRef.mk None a) st'
     = (Returns (ValueRef.mk None a), st').
Proof.
  intros Hopen Hsz Hv. destruct st as [F lk cl].
  cbn [Storage.f_closed] in Hopen. subst cl. cbv zeta.
  unfold ValueRef.store at 1 2.
  cbn [ValueRef._referent ValueRef._address N.eqb Storage._f].
  unfold bind, ret. rewrite (write_returns _ F lk Hv). cbn [fst snd].
  cbn [Storage._f] in Hsz. apply N.eqb_neq in Hsz.
  split; [reflexivity | ].
  split.
  { unfold ValueRef.get. cbn [ValueRef._referent ValueRef._address].
    rewrite Hsz. cbn [negb]. unfold PyFile.size.
    replace (F ++ struct.big_endian 8
                    (N.of_nat (length (ValueRef.referent_to_bytes v)))
               ++ ValueRef.referent_to_bytes v)
      with (F ++ struct.big_endian 8
                   (N.of_nat (length (ValueRef.referent_to_bytes v)))
              ++ ValueRef.referent_to_bytes v ++ [])
      by now rewrite app_nil_r.
    rewrite (read_at_record F _ [] true Hv). cbn [obind].
    unfold ValueRef.bytes_to_referent, ValueRef.referent_to_bytes.
    now rewrite string_of_list_byte_of_string. }
  split; [reflexivity | ].
  unfold ValueRef.store. cbn [ValueRef._referent ValueRef._address].
  rewrite Hsz. split; reflexivity.
Qed.

Lemma value_store_get_roundtrip_witness :
  let st := Storage.mk (repeat x00 4096) false false in
  let st' := snd (ValueRef.store (ValueRef.mk (Some "big"%string) 0) st) in
  fst (ValueRef.store (ValueRef.mk (Some "big"%string) 0) st)
  = Returns (ValueRef.mk (Some "big"%string) 4096)
  /\ ValueRef.get (ValueRef.mk None 4096) st' = Returns (Some "big"%string).
Proof.
  cbv zeta.
  destruct (value_store_get_roundtrip
              (Storage.mk (repeat x00 4096) false false) "big"%string)
    as (E & G & _);
    [reflexivity | vm_compute; discriminate | vm_compute; reflexivity | ].
  cbv zeta in *. split; [exact E | exact G].
Defined.

End StoreAppends.

Section NodeRecords.
Context `{Pickle}.

(** X6, nodes.  When [store] returns for a reference that holds a node
    and has no address, on a file that is not empty, the node it returns
    has the key of the node stored and references with addresses, the
    address it was given is not 0, and the reference with that address
    alone decodes from the file to the node with the same key whose three
    references are the three addresses, unresolved; storing the returned
    reference again writes nothing. *)
Theorem node_store_get_roundtrip depth st l k v r ref' st' :
  PyFile.size (Storage._f st) <> 0 ->
  BinaryNodeRef.store depth
                      (mkBinaryNodeRef (Some (mkBinaryNode l k v r)) 0) st
  = (Returns ref', st') ->
  exists l' v' r' a',
    ref' = mkBinaryNodeRef (Some (mkBinaryNode l' k v' r')) a'
    /\ a' <> 0
    /\ PyFile.size (Storage._f st) <= a'
    /\ BinaryNodeRef.get (mkBinaryNodeRef None a') st'
       = Returns (Some (mkBinaryNode
                          (mkBinaryNodeRef None (BinaryNodeRef.address l'))
                          k
                          (ValueRef.mk None (ValueRef.address v'))
                          (mkBinaryNodeRef None (BinaryNodeRef.address r'))))
    /\ forall depth', BinaryNodeRef.store depth' ref' st' = (Returns ref', st').
Proof.
  intros Hsz Hstore.
  destruct depth as [ | [ | [ | depth]]]; try discriminate Hstore.
  rewrite store_dirty in Hstore. unfold bind, ret in Hstore.
  pose proof (value_store_appends v st) as A1.
  destruct (ValueRef.store v st) as [[v' | e | ] st1]; try discriminate.
  pose proof (store_appends l depth st1) as A2.
  destruct (BinaryNodeRef.store depth l st1) as [[l' | e | ] st2];
    try discriminate.
  pose proof (store_appends r depth st2) as A3.
  destruct (BinaryNodeRef.store depth r st2) as [[r' | e | ] st3];
    try discriminate.
  cbn [snd] in *.
  pose proof (appends_size _ _ (appends_trans _ _ _ A1 (appends_trans _ _ _ A2 A3)))
    as Hgrow.
  destruct st3 as [F3 lk3 cl3]. cbn [Storage._f] in Hgrow.
  set (data := BinaryNodeRef.referent_to_bytes (mkBinaryNode l' k v' r')) in *.
  destruct cl3.
  { destruct (write_closed data F3 lk3) as (message & E).
    rewrite E in Hstore. discriminate Hstore. }
  destruct (N.lt_ge_cases (N.of_nat (length data)) (2 ^ 64)) as [Hd | Hd];
    [ | rewrite (write_raises data F3 lk3 Hd) in Hstore; discriminate].
  rewrite (write_returns data F3 lk3 Hd) in Hstore.
  assert (Eref : ref' = mkBinaryNodeRef (Some (mkBinaryNode l' k v' r'))
                                        (PyFile.size F3)) by congruence.
  assert (Est : st' = Storage.mk
                        (F3 ++ struct.big_endian 8 (N.of_nat (length data))
                            ++ data) true false) by congruence.
  clear Hstore. subst ref' st'.
  exists l', v', r', (PyFile.size F3).
  assert (Hne : PyFile.size F3 <> 0) by lia.
  apply N.eqb_neq in Hne as Hneb.
  split; [reflexivity | ]. split; [exact Hne | ]. split; [exact Hgrow | ].
  split.
  - unfold BinaryNodeRef.get.
    cbn [BinaryNodeRef._referent BinaryNodeRef._address].
    rewrite Hneb. cbn [negb]. unfold PyFile.size.
    replace (F3 ++ struct.big_endian 8 (N.of_nat (length data)) ++ data)
      with (F3 ++ struct.big_endian 8 (N.of_nat (length data)) ++ data ++ [])
      by now rewrite app_nil_r.
    rewrite (read_at_record F3 data [] true Hd). cbn [obind].
    unfold BinaryNodeRef.bytes_to_referent, data,
      BinaryNodeRef.referent_to_bytes.
    rewrite pickle_loads_dumps. reflexivity.
  - intros depth'. cbn [BinaryNodeRef.store]. now rewrite Hneb.
Qed.

(** X7, append only.  [commit] changes no byte of the file from offset 8
    on: it only appends, whether it returns or raises; what it changes
    besides is the root address in the first eight bytes. *)
Theorem commit_appends_records depth db :
  8 <= PyFile.size (file_of db) ->
  exists X,
    skipn 8 (file_of (snd (DBDB.commit depth db))) = skipn 8 (file_of db) ++ X
    /\ length (file_of (snd (DBDB.commit depth db)))
       = (length (file_of db) + length X)%nat.
Proof.
  destruct db as [[[F lk cl] ref]]. unfold file_of, DBDB._storage.
  cbn [DBDB._tree BinaryTree._storage Storage._f]. intros H8.
  destruct cl.
  { exists []. unfold DBDB.commit.
    rewrite closed_call by reflexivity. cbn.
    now rewrite app_nil_r, Nat.add_0_r. }
  unfold DBDB.commit. rewrite facade_call by reflexivity.
  rewrite tree_commit_eq. cbn [snd DBDB._tree].
  destruct (store_appends ref depth (Storage.mk F lk false)) as (X & EX & EC).
  cbn [Storage._f Storage.f_closed] in EX, EC.
  destruct (BinaryNodeRef.store depth ref (Storage.mk F lk false))
    as [[ref' | e | ] [F1 lk1 cl1]];
    cbn [snd Storage._f Storage.f_closed] in EX, EC; subst F1 cl1;
    cbn [snd BinaryTree._storage Storage._f];
    try (exists X; split; [ | now rewrite length_app];
         rewrite skipn_app;
         replace (8 - length F)%nat with 0%nat
           by (unfold PyFile.size in H8; lia);
         reflexivity).
  destruct (N.lt_ge_cases (BinaryNodeRef.address ref') (2 ^ 64)) as [Ha | Ha].
  - rewrite (commit_root_address_returns _ (F ++ X) lk1 Ha).
    cbn [snd BinaryTree._storage Storage._f]. exists X.
    assert (Hh : length (struct.big_endian 8 (BinaryNodeRef.address ref'))
                 = 8%nat) by apply big_endian_length.
    split.
    + rewrite skipn_app, Hh, Nat.sub_diag.
      rewrite skipn_all2 by lia. cbn [app]. rewrite skipn_O.
      rewrite skipn_app.
      replace (8 - length F)%nat with 0%nat
        by (unfold PyFile.size in H8; lia).
      reflexivity.
    + rewrite length_app, Hh, length_skipn, !length_app.
      unfold PyFile.size in H8. lia.
  - rewrite (commit_root_address_raises _ (F ++ X) lk1 Ha).
    cbn [snd BinaryTree._storage Storage._f]. exists X.
    split; [ | now rewrite length_app].
    rewrite skipn_app.
    replace (8 - length F)%nat with 0%nat
      by (unfold PyFile.size in H8; lia).
    reflexivity.
Qed.

Lemma read_call_storage {A} (f : BinaryTree.t -> outcome A) db :
  DBDB._storage
    (snd ((DBDB._assert_not_closed ;;;
           DBDB.on_tree (BinaryTree.refresh_unless_locked ;;; pure_call f))
            db))
  = DBDB._storage db.
Proof.
  destruct db as [[[F lk cl] ref]].
  unfold DBDB._assert_not_closed, DBDB.on_tree,
    BinaryTree.refresh_unless_locked, BinaryTree._refresh_tree_ref,
    BinaryTree.set_tree_ref, DBDB._storage, Storage.closed.
  monad_unfold.
  cbn [DBDB._tree BinaryTree._storage BinaryTree._tree_ref Storage._f
       Storage.f_closed Storage.locked].
  destruct cl; [reflexivity | ].
  destruct lk; cbn [negb]; [reflexivity | ].
  destruct (Storage.get_root_address _) as [a | e | ]; reflexivity.
Qed.

(** X8, reads are read-only.  [get], [get_left], [get_right] and [chop]
    leave the file, the lock and the closed flag of any handle as they
    were, whatever they return or raise; [get_min] and [delete] leave the
    whole handle as it was. *)
Theorem reads_write_nothing db fuel key :
  DBDB._storage (snd (DBDB.get fuel key db)) = DBDB._storage db
  /\ DBDB._storage (snd (DBDB.get_left fuel key db)) = DBDB._storage db
  /\ DBDB._storage (snd (DBDB.get_right fuel key db)) = DBDB._storage db
  /\ DBDB._storage (snd (DBDB.chop fuel key db)) = DBDB._storage db
  /\ snd (DBDB.get_min fuel db) = db
  /\ snd (DBDB.delete key db) = db.
Proof.
  unfold DBDB.get, BinaryTree.get, DBDB.get_left, BinaryTree.get_left,
    DBDB.get_right, BinaryTree.get_right, DBDB.chop, BinaryTree.chop.
  rewrite !read_call_storage.
  repeat split; [ | apply delete_call].
  destruct db as [[[F lk cl] ref]].
  unfold DBDB.get_min, BinaryTree.get_min, DBDB._assert_not_closed,
    DBDB.on_tree, DBDB._storage, Storage.closed.
  monad_unfold. cbn [DBDB._tree BinaryTree._storage Storage.f_closed].
  destruct cl; [reflexivity | ].
  match goal with |- context [obind ?m ?k] => destruct (obind m k) end;
    reflexivity.
Qed.

End NodeRecords.

Lemma node_store_get_roundtrip_witness :
  let st := Storage.mk (repeat x00 4096) false false in
  let leaf := mkBinaryNode (mkBinaryNodeRef None 0) 16
                           (ValueRef.mk (Some "big"%string) 0)
                           (mkBinaryNodeRef None 0) in
  let st' :=
    snd (BinaryNodeRef.store 10 (mkBinaryNodeRef (Some leaf) 0) st) in
  BinaryNodeRef.get (mkBinaryNodeRef None 4107) st'
  = Returns (Some (mkBinaryNode (mkBinaryNodeRef None 0) 16
                                (ValueRef.mk None 4096)
                                (mkBinaryNodeRef None 0))).
Proof.
  cbv zeta.
  set (st := Storage.mk (repeat x00 4096) false false).
  set (ref := mkBinaryNodeRef
                (Some (mkBinaryNode (mkBinaryNodeRef None 0) 16
                                    (ValueRef.mk (Some "big"%string) 0)
                                    (mkBinaryNodeRef None 0))) 0).
  destruct (node_store_get_roundtrip 10 st
              (mkBinaryNodeRef None 0) 16 (ValueRef.mk (Some "big"%string) 0)
              (mkBinaryNodeRef None 0)
              (mkBinaryNodeRef
                 (Some (mkBinaryNode (mkBinaryNodeRef None 0) 16
                                     (ValueRef.mk (Some "big"%string) 4096)
                                     (mkBinaryNodeRef None 0))) 4107)
              (snd (BinaryNodeRef.store 10 ref st)))
    as (l' & v' & r' & a' & E & _ & _ & G & _);
    [vm_compute; discriminate | vm_compute; reflexivity | ].
  injection E as <- <- <- <-. exact G.
Defined.

Lemma commit_appends_records_witness :
  exists X,
    skipn 8 (file_of (snd (DBDB.commit 10 (after_calls 10 test4_calls))))
    = skipn 8 (file_of (after_calls 10 test4_calls)) ++ X
    /\ length (file_of (snd (DBDB.commit 10 (after_calls 10 test4_calls))))
       = (length (file_of (after_calls 10 test4_calls)) + length X)%nat.
Proof.
  apply (commit_appends_records 10 (after_calls 10 test4_calls)).
  vm_compute. discriminate.
Defined.

(** * Further properties: the tree *)

Lemma all_keys_inorder (P : Z -> Prop) t :
  all_keys P t <-> Forall (fun e => P (fst e)) (inorder t).
Proof.
  induction t as [ | l IHl k v r IHr]; simpl.
  - split; [constructor | trivial].
  - rewrite Forall_app, Forall_cons_iff, IHl, IHr. cbn [fst]. tauto.
Qed.

Lemma in_inorder_lookup t key value :
  bst t -> (In (key, value) (inorder t) <-> lookup t key = Some value).
Proof.
  induction t as [ | l IHl k v r IHr]; simpl.
  - intros _. split; [contradiction | discriminate].
  - intros (Hlt & Hgt & Bl & Br).
    rewrite in_app_iff. cbn [In].
    apply all_keys_inorder in Hlt, Hgt.
    rewrite Forall_forall in Hlt, Hgt.
    destruct (Z.ltb_spec key k) as [L | L];
      [ | destruct (Z.gtb_spec key k) as [G | G]].
    + rewrite <- (IHl Bl). split; [ | tauto].
      intros [Hin | [[= E _] | Hin]]; [assumption | lia | ].
      apply Hgt in Hin. cbn [fst] in Hin. lia.
    + rewrite <- (IHr Br). split; [ | tauto].
      intros [Hin | [[= E _] | Hin]]; [ | lia | assumption].
      apply Hlt in Hin. cbn [fst] in Hin. lia.
    + assert (key = k) as -> by lia. split.
      * intros [Hin | [[= E] | Hin]]; [ | congruence | ].
        -- apply Hlt in Hin. cbn [fst] in Hin. lia.
        -- apply Hgt in Hin. cbn [fst] in Hin. lia.
      * intros [= ->]. right. now left.
Qed.

Lemma in_entries t key value :
  In (key, Some value) (entries t) <-> In (key, value) (inorder t).
Proof.
  unfold entries. rewrite in_map_iff. split.
  - intros ([k v] & [= -> ->] & Hin). exact Hin.
  - intros Hin. now exists (key, value).
Qed.

Lemma keys_entries t : map fst (entries t) = map fst (inorder t).
Proof. unfold entries. rewrite map_map. reflexivity. Qed.

Lemma sorted_app (l1 l2 : list Z) :
  StronglySorted Z.lt l1 -> StronglySorted Z.lt l2 ->
  (forall a b, In a l1 -> In b l2 -> (a < b)%Z) ->
  StronglySorted Z.lt (l1 ++ l2).
Proof.
  induction 1 as [ | a l1 S1 IH F1]; intros S2 Hlt; [exact S2 | ].
  cbn [app]. constructor.
  - apply IH; [exact S2 | ]. intros x y Hx Hy. apply Hlt; [now right | exact Hy].
  - apply Forall_app. split; [exact F1 | ].
    apply Forall_forall. intros y Hy. apply Hlt; [now left | exact Hy].
Qed.

Lemma bst_sorted t : bst t -> StronglySorted Z.lt (map fst (inorder t)).
Proof.
  induction t as [ | l IHl k v r IHr]; simpl; [constructor | ].
  intros (Hlt & Hgt & Bl & Br).
  apply all_keys_inorder in Hlt, Hgt.
  rewrite Forall_forall in Hlt, Hgt.
  rewrite map_app. cbn [map fst].
  apply sorted_app; [auto | | ].
  - constructor; [auto | ].
    apply Forall_forall. intros y Hy.
    apply in_map_iff in Hy as (e & <- & He). now apply Hgt.
  - intros a b Ha [<- | Hb].
    + apply in_map_iff in Ha as (e & <- & He). now apply Hlt.
    + apply in_map_iff in Ha as (e & <- & He).
      apply in_map_iff in Hb as (e' & <- & He').
      apply Hlt in He. apply Hgt in He'. lia.
Qed.

Lemma leftmost_head t :
  leftmost t = option_map snd (hd_error (inorder t)).
Proof.
  induction t as [ | l IHl k v r _]; [reflexivity | ].
  destruct l as [ | ll lk lv lr]; [reflexivity | ].
  change (leftmost (Node (Node ll lk lv lr) k v r))
    with (leftmost (Node ll lk lv lr)).
  rewrite IHl. cbn [inorder].
  destruct (inorder ll ++ (lk, lv) :: inorder lr) as [ | e rest] eqn:E;
    [now destruct (inorder ll) | reflexivity].
Qed.

Section TreeProperties.
Context `{Pickle}.


(** X10, [get] and the traversal.  On a reachable database [get] returns
    a value for a key exactly when [traverse_in_order] from the root lists
    the key with that value, and raises [KeyError] exactly when the
    traversal does not list the key. *)
Theorem get_iff_listed db t fuel key :
  reachable db -> holds db t -> (height t <= fuel)%nat ->
  exists all,
    traverse_root fuel db = Returns all
    /\ (forall value,
          fst (DBDB.get fuel key db) = Returns (Some value)
          <-> In (key, Some value) all)
    /\ (fst (DBDB.get fuel key db) = Raises KeyError
        <-> ~ In key (map fst all)).
Proof.
  intros Hreach Ht Hfuel. destruct (reachable_inv db Hreach) as (tc & tm & I).
  assert (Et : t = tm) by (eapply inv_holds; eassumption). subst t.
  exists (entries tm).
  split; [now apply (traverse_root_outcome fuel db tc tm I) | ].
  rewrite (get_outcome fuel key db _ _ I Hfuel).
  assert (B : bst tm) by apply I.
  split.
  - intros value. rewrite in_entries, (in_inorder_lookup tm key value B).
    destruct (lookup tm key); simpl; split; congruence.
  - rewrite keys_entries. split.
    + intros E Hin. apply in_map_iff in Hin as ([k v] & Hk & Hin).
      cbn [fst] in Hk. subst k.
      apply (in_inorder_lookup tm key v B) in Hin. rewrite Hin in E.
      discriminate.
    + intros Hnot. destruct (lookup tm key) as [v | ] eqn:E; [ | reflexivity].
      exfalso. apply Hnot.
      apply (in_inorder_lookup tm key v B) in E.
      apply in_map_iff. now exists (key, v).
Qed.

(** X11, order of the traversal.  On a reachable database
    [traverse_in_order] from the root returns, and lists the keys in
    strictly increasing order, each key once. *)
Theorem traversal_sorted db t fuel :
  reachable db -> holds db t -> (height t <= fuel)%nat ->
  exists all,
    traverse_root fuel db = Returns all
    /\ StronglySorted Z.lt (map fst all)
    /\ NoDup (map fst all).
Proof.
  intros Hreach Ht Hfuel. destruct (reachable_inv db Hreach) as (tc & tm & I).
  assert (Et : t = tm) by (eapply inv_holds; eassumption). subst t.
  exists (entries tm).
  split; [now apply (traverse_root_outcome fuel db tc tm I) | ].
  rewrite keys_entries.
  assert (S : StronglySorted Z.lt (map fst (inorder tm)))
    by apply bst_sorted, I.
  split; [exact S | ].
  clear - S. induction S as [ | a l S IH F]; constructor; [ | exact IH].
  intros Hin. rewrite Forall_forall in F. apply F in Hin. lia.
Qed.

(** X12, [get_min].  On a reachable database whose traversal is not
    empty, [get_min] returns the value the traversal lists first, which is
    the value of the smallest key. *)
Theorem get_min_smallest_key db t fuel :
  reachable db -> holds db t -> t <> Leaf -> (height t <= fuel)%nat ->
  exists k0 v0 rest,
    traverse_root fuel db = Returns ((k0, Some v0) :: rest)
    /\ fst (DBDB.get_min fuel db) = Returns (Some v0)
    /\ Forall (fun e => (k0 < fst e)%Z) rest.
Proof.
  intros Hreach Ht Hne Hfuel.
  destruct (reachable_inv db Hreach) as (tc & tm & I).
  assert (Et : t = tm) by (eapply inv_holds; eassumption). subst t.
  pose proof (get_min_outcome fuel db tc tm I Hfuel) as O.
  pose proof (traverse_root_outcome fuel db tc tm I Hfuel) as T.
  pose proof (bst_sorted tm ltac:(apply I)) as S.
  rewrite <- keys_entries in S.
  pose proof (leftmost_head tm) as L.
  destruct tm as [ | l k v r]; [congruence | ].
  unfold entries in *.
  destruct (inorder (Node l k v r)) as [ | [k0 v0] rest] eqn:E.
  { simpl in E. now destruct (inorder l). }
  cbn [map fst snd] in *.
  exists k0, v0, (map (fun kv => (fst kv, Some (snd kv))) rest).
  split; [exact T | ]. split; [now rewrite O, L | ].
  inversion S as [ | ? ? _ F]; subst.
  rewrite Forall_map in F. exact F.
Qed.

End TreeProperties.


Lemma get_iff_listed_witness :
  exists all,
    traverse_root 10 (after_calls 10 test4_calls) = Returns all
    /\ (forall value,
          fst (DBDB.get 10 15 (after_calls 10 test4_calls))
          = Returns (Some value)
          <-> In (15%Z, Some value) all)
    /\ (fst (DBDB.get 10 15 (after_calls 10 test4_calls)) = Raises KeyError
        <-> ~ In 15%Z (map fst all)).
Proof.
  apply (get_iff_listed (after_calls 10 test4_calls)
                        (insert_all Leaf test4_calls) 10 15).
  - apply after_calls_reachable.
  - apply after_calls_holds. simpl. lia.
  - simpl. lia.
Defined.

Lemma traversal_sorted_witness :
  exists all,
    traverse_root 10 (after_calls 10 test5_calls) = Returns all
    /\ StronglySorted Z.lt (map fst all)
    /\ NoDup (map fst all).
Proof.
  apply (traversal_sorted (after_calls 10 test5_calls)
                          (insert_all Leaf test5_calls) 10).
  - apply after_calls_reachable.
  - apply after_calls_holds. simpl. lia.
  - simpl. lia.
Defined.

Lemma get_min_smallest_key_witness :
  exists k0 v0 rest,
    traverse_root 10 (after_calls 10 test5_calls)
    = Returns ((k0, Some v0) :: rest)
    /\ fst (DBDB.get_min 10 (after_calls 10 test5_calls)) = Returns (Some v0)
    /\ Forall (fun e => (k0 < fst e)%Z) rest.
Proof.
  apply (get_min_smallest_key (after_calls 10 test5_calls)
                              (insert_all Leaf test5_calls) 10).
  - apply after_calls_reachable.
  - apply after_calls_holds. simpl. lia.
  - discriminate.
  - simpl. lia.
Defined.

Lemma children_entries t key l r :
  bst t -> children t key = Some (l, r) ->
  (forall e, In e (inorder l) -> In e (inorder t) /\ (fst e < key)%Z)
  /\ (forall e, In e (inorder r) -> In e (inorder t) /\ (key < fst e)%Z).
Proof.
  induction t as [ | l0 IHl k v r0 IHr]; simpl; [discriminate | ].
  intros (Hlt & Hgt & Bl & Br) Hc.
  destruct (Z.ltb_spec key k) as [L | L];
    [ | destruct (Z.gtb_spec key k) as [G | G]].
  - destruct (IHl Bl Hc) as [A B].
    split; intros e He; [destruct (A e He) | destruct (B e He)];
      (split; [apply in_app_iff; now left | assumption]).
  - destruct (IHr Br Hc) as [A B].
    split; intros e He; [destruct (A e He) | destruct (B e He)];
      (split; [apply in_app_iff; right; now right | assumption]).
  - injection Hc as <- <-. assert (key = k) by lia. subst key.
    apply all_keys_inorder in Hlt, Hgt. rewrite Forall_forall in Hlt, Hgt.
    split; intros e He; (split; [apply in_app_iff | auto]);
      [now left | right; now right].
Qed.

Lemma root_entry_listed t k v :
  root_entry t = Some (k, v) -> In (k, v) (inorder t).
Proof.
  destruct t as [ | l k0 v0 r]; [discriminate | ].
  intros [= -> ->]. simpl. apply in_app_iff. right. now left.
Qed.

Lemma sorted_last (l : list Z) x :
  StronglySorted Z.lt (l ++ [x]) -> Forall (fun y => (y < x)%Z) l.
Proof.
  induction l as [ | a l IH]; cbn [app]; intros S; [constructor | ].
  inversion S as [ | ? ? S' F']; subst. constructor; [ | now apply IH].
  rewrite Forall_forall in F'. apply F', in_app_iff. right. now left.
Qed.

Section FindMax.
Context `{Pickle}.
Variables (F : list byte) (lk : bool).

Lemma find_max_spec t : forall lr k vr rr l v r fuel,
  t = Node l k v r ->
  repr F lr l -> value_at F vr v -> repr F rr r ->
  (height t <= fuel)%nat ->
  exists m front vm,
    BinaryTree._find_max fuel (Storage.mk F lk false)
                         (mkBinaryNode lr k vr rr)
    = Returns m
    /\ inorder t = front ++ [(BinaryNode.key m, vm)]
    /\ value_at F (BinaryNode.value_ref m) vm.
Proof.
  induction t as [ | l0 _ k0 v0 r0 IHr];
    intros lr k vr rr l v r fuel E Rl Rv Rr Hfuel; [discriminate | ].
  injection E as -> -> -> ->.
  destruct fuel as [ | fuel]; [simpl in Hfuel; lia | ].
  simpl in Hfuel.
  cbn [BinaryTree._find_max BinaryNode.right_ref].
  destruct (follow_repr F lk _ _ Rr) as (n & Hf & Hn).
  rewrite Hf. cbn [obind].
  inversion Hn as [ E1 E2 | clr ck cvr crr cl' cv cr' Cl Cv Cr E1 E2 ]; subst.
  - exists (mkBinaryNode lr k vr rr), (inorder l), v.
    cbn [inorder BinaryNode.key BinaryNode.value_ref]. auto.
  - destruct (IHr clr ck cvr crr cl' cv cr' fuel eq_refl Cl Cv Cr)
      as (m & front & vm & Em & Ein & Hv); [lia | ].
    exists m, (inorder l ++ (k, v) :: front), vm.
    split; [exact Em | ]. split; [ | exact Hv].
    change (inorder (Node l k v (Node cl' ck cv cr')))
      with (inorder l ++ (k, v) :: inorder (Node cl' ck cv cr')).
    rewrite Ein, <- app_assoc. reflexivity.
Qed.

End FindMax.

Section TreeNavigation.
Context `{Pickle}.

(** X13, the children [get_left] and [get_right] return.  On a reachable
    database, the key [get_left] returns for a key is smaller than that
    key, the key [get_right] returns is greater, and [get] of the returned
    key returns the value that came with it. *)
Theorem child_key_order db t fuel key :
  reachable db -> holds db t -> (height t <= fuel)%nat ->
  (forall k' v',
      fst (DBDB.get_left fuel key db) = Returns (k', v') ->
      (k' < key)%Z /\ fst (DBDB.get fuel k' db) = Returns v')
  /\ (forall k' v',
      fst (DBDB.get_right fuel key db) = Returns (k', v') ->
      (key < k')%Z /\ fst (DBDB.get fuel k' db) = Returns v').
Proof.
  intros Hreach Ht Hfuel. destruct (reachable_inv db Hreach) as (tc & tm & I).
  assert (Et : t = tm) by (eapply inv_holds; eassumption). subst t.
  assert (B : bst tm) by apply I.
  rewrite (get_left_outcome fuel key db tc tm I Hfuel).
  rewrite (get_right_outcome fuel key db tc tm I Hfuel).
  unfold child_outcome.
  destruct (children tm key) as [[l r] | ] eqn:Ec; cbn [fst snd];
    [ | split; discriminate].
  destruct (children_entries tm key l r B Ec) as [L R].
  split; intros k' v' E.
  - destruct (root_entry l) as [[k1 v1] | ] eqn:Er; [ | discriminate].
    injection E as <- <-.
    destruct (L _ (root_entry_listed _ _ _ Er)) as [Hin Hlt].
    split; [exact Hlt | ].
    rewrite (get_outcome fuel k1 db tc tm I Hfuel).
    apply (in_inorder_lookup tm k1 v1 B) in Hin. now rewrite Hin.
  - destruct (root_entry r) as [[k1 v1] | ] eqn:Er; [ | discriminate].
    injection E as <- <-.
    destruct (R _ (root_entry_listed _ _ _ Er)) as [Hin Hlt].
    split; [exact Hlt | ].
    rewrite (get_outcome fuel k1 db tc tm I Hfuel).
    apply (in_inorder_lookup tm k1 v1 B) in Hin. now rewrite Hin.
Qed.

(** X14, [_find_max].  On a reachable database that is not empty,
    [_find_max] from the root node returns the node the traversal lists
    last: its key is greater than every other key of the database, and
    its value reference reads the value listed with it. *)
Theorem find_max_greatest_key db t fuel :
  reachable db -> holds db t -> t <> Leaf -> (height t <= fuel)%nat ->
  exists root m front vm,
    BinaryTree._follow (BinaryTree._tree_ref (DBDB._tree db))
                       (DBDB._storage db) = Returns (Some root)
    /\ BinaryTree._find_max fuel (DBDB._storage db) root = Returns m
    /\ BinaryTree._follow_value (BinaryNode.value_ref m) (DBDB._storage db)
       = Returns (Some vm)
    /\ traverse_root fuel db
       = Returns (front ++ [(BinaryNode.key m, Some vm)])
    /\ Forall (fun e => (fst e < BinaryNode.key m)%Z) front.
Proof.
  intros Hreach Ht Hne Hfuel.
  destruct (reachable_inv db Hreach) as (tc & tm & I).
  assert (Et : t = tm) by (eapply inv_holds; eassumption). subst t.
  pose proof (bst_sorted tm ltac:(apply I)) as S.
  pose proof (traverse_root_outcome fuel db tc tm I Hfuel) as T.
  unfold holds, file_of in Ht. pose proof (proj1 I) as Hcl.
  destruct (DBDB._storage db) as [F lk cl] eqn:Est.
  cbn [Storage._f Storage.f_closed] in Ht, Hcl. subst cl.
  destruct (follow_repr F lk _ _ Ht) as (node & Hf & Hn).
  destruct Hn as [ | lr k vr rr l v r Rl Rv Rr]; [congruence | ].
  destruct (find_max_spec F lk (Node l k v r) lr k vr rr l v r fuel
              eq_refl Rl Rv Rr Hfuel)
    as (m & front & vm & Em & Ein & Hv).
  exists (mkBinaryNode lr k vr rr), m,
    (map (fun kv => (fst kv, Some (snd kv))) front), vm.
  split; [exact Hf | ]. split; [exact Em | ].
  split; [now apply follow_value | ].
  split.
  - rewrite T. unfold entries. rewrite Ein, map_app. reflexivity.
  - rewrite Ein, map_app in S. apply sorted_last in S.
    rewrite Forall_map in S. rewrite Forall_map. exact S.
Qed.

End TreeNavigation.

Lemma child_key_order_witness :
  (forall k' v',
      fst (DBDB.get_left 10 8 (after_calls 10 test5_calls))
      = Returns (k', v') ->
      (k' < 8)%Z
      /\ fst (DBDB.get 10 k' (after_calls 10 test5_calls)) = Returns v')
  /\ (forall k' v',
      fst (DBDB.get_right 10 8 (after_calls 10 test5_calls))
      = Returns (k', v') ->
      (8 < k')%Z
      /\ fst (DBDB.get 10 k' (after_calls 10 test5_calls)) = Returns v').
Proof.
  apply (child_key_order (after_calls 10 test5_calls)
                         (insert_all Leaf test5_calls) 10 8).
  - apply after_calls_reachable.
  - apply after_calls_holds. simpl. lia.
  - simpl. lia.
Defined.

Lemma find_max_greatest_key_witness :
  exists root m front vm,
    BinaryTree._follow
      (BinaryTree._tree_ref (DBDB._tree (after_calls 10 test5_calls)))
      (DBDB._storage (after_calls 10 test5_calls)) = Returns (Some root)
    /\ BinaryTree._find_max 10 (DBDB._storage (after_calls 10 test5_calls))
                            root = Returns m
    /\ BinaryTree._follow_value
         (BinaryNode.value_ref m)
         (DBDB._storage (after_calls 10 test5_calls))
       = Returns (Some vm)
    /\ traverse_root 10 (after_calls 10 test5_calls)
       = Returns (front ++ [(BinaryNode.key m, Some vm)])
    /\ Forall (fun e => (fst e < BinaryNode.key m)%Z) front.
Proof.
  apply (find_max_greatest_key (after_calls 10 test5_calls)
                               (insert_all Leaf test5_calls) 10).
  - apply after_calls_reachable.
  - apply after_calls_holds. simpl. lia.
  - discriminate.
  - simpl. lia.
Defined.

(** * Further properties: commits *)

Section Commits.
Context `{Pickle}.

Lemma store_refs_appends depth node st :
  appends st (snd (BinaryNodeRef.store_refs depth node st)).
Proof.
  destruct node as [l k v r]. cbn [BinaryNodeRef.store_refs].
  unfold bind, ret.
  pose proof (value_store_appends v st) as Hv.
  destruct (ValueRef.store v st) as [[v' | e | ] st1]; cbn [snd] in *;
    try assumption.
  pose proof (store_appends l depth st1) as Hl.
  destruct (BinaryNodeRef.store depth l st1) as [[l' | e | ] st2];
    cbn [snd] in *; try (eapply appends_trans; eassumption).
  pose proof (store_appends r depth st2) as Hr.
  destruct (BinaryNodeRef.store depth r st2) as [[r' | e | ] st3];
    cbn [snd] in *;
    eapply appends_trans; try eassumption;
    eapply appends_trans; eassumption.
Qed.

(** The reference [store] returns has an address, unless it is the
    unresolved reference it was given. *)
Lemma store_address depth ref st ref' st' :
  0 < PyFile.size (Storage._f st) ->
  BinaryNodeRef.store depth ref st = (Returns ref', st') ->
  BinaryNodeRef._referent ref' = None \/ BinaryNodeRef.address ref' <> 0.
Proof.
  intros Hsz. destruct ref as [[node | ] a]; cbn [BinaryNodeRef.store];
    [ | unfold ret; intros [= <- _]; now left].
  destruct (a =? 0) eqn:Ea;
    [ | unfold ret; intros [= <- _]; right; now apply N.eqb_neq].
  destruct depth as [ | [ | [ | depth]]]; try discriminate.
  unfold bind, ret.
  pose proof (store_refs_appends depth node st) as (X & EX & _).
  destruct (BinaryNodeRef.store_refs depth node st) as [[node' | e | ] st1];
    cbn [snd] in *; try discriminate.
  destruct st1 as [F1 lk1 [ | ]]; cbn [Storage._f] in EX.
  { destruct (write_closed (BinaryNodeRef.referent_to_bytes node') F1 lk1)
      as (message & ->). discriminate. }
  destruct (N.lt_ge_cases
              (N.of_nat (length (BinaryNodeRef.referent_to_bytes node')))
              (2 ^ 64)) as [Hd | Hd].
  - rewrite (write_returns _ F1 lk1 Hd). intros [= <- _]. right.
    unfold BinaryNodeRef.address. cbn [BinaryNodeRef._address].
    rewrite EX, size_app. lia.
  - rewrite (write_raises _ F1 lk1 Hd). discriminate.
Qed.

(** [store] returns what it is given, and writes nothing, for a reference
    that is unresolved or has an address. *)
Lemma store_clean depth ref st :
  BinaryNodeRef._referent ref = None \/ BinaryNodeRef.address ref <> 0 ->
  BinaryNodeRef.store depth ref st = (Returns ref, st).
Proof.
  destruct ref as [[node | ] a]; cbn [BinaryNodeRef.store];
    [ | reflexivity].
  intros [Hn | Ha]; [discriminate Hn | ].
  unfold BinaryNodeRef.address in Ha. cbn [BinaryNodeRef._address] in Ha.
  apply N.eqb_neq in Ha. rewrite Ha. reflexivity.
Qed.

Lemma read_call_published {A} (f : BinaryTree.t -> outcome A) db tc tm :
  inv db tc tm ->
  published (snd ((DBDB._assert_not_closed ;;;
                   DBDB.on_tree (BinaryTree.refresh_unless_locked ;;;
                                 pure_call f)) db)).
Proof.
  destruct db as [[[F lk cl] ref]].
  unfold inv, holds, file_of, DBDB._storage.
  cbn [DBDB._tree BinaryTree._storage BinaryTree._tree_ref Storage._f
       Storage.f_closed Storage.locked].
  intros (Hcl & Hsz & Hc & Hm & Hlk & Bc & Bm). subst cl.
  unfold DBDB._assert_not_closed, DBDB.on_tree,
    BinaryTree.refresh_unless_locked, DBDB._storage, Storage.closed.
  monad_unfold.
  cbn [DBDB._tree BinaryTree._storage BinaryTree._tree_ref Storage._f
       Storage.f_closed Storage.locked].
  destruct lk; cbn [negb].
  - cbn [snd]. intros Hl. discriminate Hl.
  - destruct Hc as (a & Ha & Ra).
    rewrite (refresh_tree_ref_spec F false ref a Ha).
    cbn [snd]. intros _. split; [exact Ha | now left].
Qed.

Lemma commit_published depth db tc tm :
  inv db tc tm -> published db -> published (snd (DBDB.commit depth db)).
Proof.
  destruct db as [[[F lk cl] ref]].
  unfold inv, holds, file_of, DBDB._storage, published.
  cbn [DBDB._tree BinaryTree._storage BinaryTree._tree_ref Storage._f
       Storage.f_closed Storage.locked].
  intros (Hcl & Hsz & Hc & Hm & Hlk & Bc & Bm) Hpub. subst cl.
  unfold DBDB.commit. rewrite facade_call by reflexivity.
  pose proof (superblock_has_root F Hsz) as H8.
  destruct (store_spec F ref tm Hm depth F lk (extends_refl F) H8)
    as (X & lk' & S & L & P).
  rewrite tree_commit_eq.
  pose proof (store_address depth ref (Storage.mk F lk false)) as Haddr.
  pose proof (store_clean depth ref (Storage.mk F lk false)) as Hclean.
  destruct (BinaryNodeRef.store depth ref (Storage.mk F lk false))
    as [[ref' | e | ] st']; cbn [fst snd] in S, P; subst st';
    [ | | contradiction].
  - destruct (N.lt_ge_cases (BinaryNodeRef.address ref') (2 ^ 64))
      as [Ha | Ha].
    + rewrite (commit_root_address_returns _ (F ++ X) lk' Ha).
      cbn [snd]. intros _.
      cbn [DBDB._storage DBDB._tree BinaryTree._storage
           BinaryTree._tree_ref].
      split; [now apply get_root_address_after_commit | ].
      eapply Haddr; [ | reflexivity].
      cbn [Storage._f]. unfold Storage.SUPERBLOCK_SIZE in Hsz. lia.
    + rewrite (commit_root_address_raises _ (F ++ X) lk' Ha).
      cbn [snd]. intros Hl. discriminate Hl.
  - cbn [snd DBDB._storage DBDB._tree BinaryTree._storage
         BinaryTree._tree_ref Storage.locked] in Hpub |- *.
    intros Hl. subst lk'.
    destruct L as [L | L]; [discriminate L | ]. subst lk.
    destruct (Hpub eq_refl) as [_ Hc0].
    specialize (Hclean Hc0). discriminate Hclean.
Qed.

(** A reachable handle that does not hold the lock has nothing to write. *)
Lemma reachable_published db : reachable db -> published db.
Proof.
  induction 1 as [ db Hnew
                 | db fuel k v Hr _
                 | db depth Hr IH
                 | db fuel k Hr _
                 | db fuel Hr IH
                 | db fuel k Hr _
                 | db fuel k Hr _
                 | db fuel k Hr _
                 | db k Hr IH
                 | db db' Hr _ Hre ].
  - rewrite connect_new in Hnew. injection Hnew as <-.
    intros _. split; [vm_compute; reflexivity | now left].
  - destruct (reachable_inv db Hr) as (tc & tm & I).
    destruct (set_call fuel k v db tc tm I) as (tm' & _ & _ & Hl & _).
    intros Hu. cbv zeta in Hl. rewrite Hl in Hu. discriminate Hu.
  - destruct (reachable_inv db Hr) as (tc & tm & I).
    eapply commit_published; eassumption.
  - destruct (reachable_inv db Hr) as (tc & tm & I).
    unfold DBDB.get, BinaryTree.get. eapply read_call_published; eassumption.
  - destruct (reachable_inv db Hr) as (tc & tm & I).
    rewrite get_min_call by apply I. exact IH.
  - destruct (reachable_inv db Hr) as (tc & tm & I).
    unfold DBDB.get_left, BinaryTree.get_left.
    eapply read_call_published; eassumption.
  - destruct (reachable_inv db Hr) as (tc & tm & I).
    unfold DBDB.get_right, BinaryTree.get_right.
    eapply read_call_published; eassumption.
  - destruct (reachable_inv db Hr) as (tc & tm & I).
    unfold DBDB.chop, BinaryTree.chop.
    eapply read_call_published; eassumption.
  - now rewrite delete_call.
  - destruct (connect_shape _ _ Hre) as (F & a & -> & Ha).
    intros _. split; [exact Ha | now left].
Qed.

Lemma commit_unlocked depth db :
  reachable db -> Storage.locked (DBDB._storage db) = false ->
  DBDB.commit depth db = (Returns tt, db).
Proof.
  intros Hreach Hu.
  destruct (reachable_published db Hreach Hu) as [Hroot Hclean].
  destruct (reachable_inv db Hreach) as (tc & tm & I).
  destruct I as (Hcl & Hsz & _).
  destruct db as [[[F lk cl] ref]].
  unfold file_of, DBDB._storage in *.
  cbn [DBDB._tree BinaryTree._storage BinaryTree._tree_ref Storage._f
       Storage.f_closed Storage.locked] in *.
  subst lk cl.
  unfold DBDB.commit. rewrite facade_call by reflexivity.
  rewrite tree_commit_eq.
  rewrite (store_clean depth ref _ Hclean).
  destruct (get_root_address_returns F false
              (superblock_has_root F Hsz)) as (a & Ea & Ha & Hbe).
  assert (Eaddr : BinaryNodeRef.address ref = a) by congruence.
  rewrite Eaddr, (commit_root_address_returns a F false Ha).
  cbn [fst snd]. rewrite Hbe, firstn_skipn. reflexivity.
Qed.

(** X15, a commit without changes.  On a reachable handle that does not
    hold the lock, [commit] returns and leaves the file and the handle as
    they were; so a second [commit] after one that returned changes
    nothing. *)
Theorem commit_without_changes depth depth' db :
  reachable db ->
  (Storage.locked (DBDB._storage db) = false ->
   DBDB.commit depth db = (Returns tt, db))
  /\ (fst (DBDB.commit depth db) = Returns tt ->
      DBDB.commit depth' (snd (DBDB.commit depth db))
      = (Returns tt, snd (DBDB.commit depth db))).
Proof.
  intros Hreach. split; [now apply commit_unlocked | ].
  intros Hret. apply commit_unlocked; [now apply reach_commit | ].
  destruct (reachable_inv db Hreach) as (tc & tm & I).
  destruct (commit_call depth db tc tm I)
    as [(_ & _ & Hl) | ([E | E] & _)];
    [exact Hl | | ]; cbv zeta in E; rewrite E in Hret; discriminate Hret.
Qed.

(** X16, records without a root.  [BinaryNodeRef.store] on the root
    reference of a reachable handle, the first step of [commit], appends
    the records of the new nodes to the file, but as long as the root
    address is not written a new [connect] to that file finds what a new
    [connect] to the file before the [store] finds: the same traversal
    and the same answer of [get] for every key. *)
Theorem unpublished_store_invisible depth db tc fuel :
  reachable db -> committed (file_of db) tc -> (height tc <= fuel)%nat ->
  let st' := snd (BinaryNodeRef.store depth
                                      (BinaryTree._tree_ref (DBDB._tree db))
                                      (DBDB._storage db)) in
  exists db0 db1 all,
    connect (file_of db) = Returns db0
    /\ connect (Storage._f st') = Returns db1
    /\ traverse_root fuel db0 = Returns all
    /\ traverse_root fuel db1 = Returns all
    /\ forall key,
         fst (DBDB.get fuel key db1) = fst (DBDB.get fuel key db0).
Proof.
  intros Hreach Hc Hfuel. cbv zeta.
  destruct (reachable_inv db Hreach) as (tc' & tm & I).
  assert (Etc : tc = tc') by (eapply inv_committed; eassumption).
  subst tc'.
  destruct I as (Hcl & Hsz & _ & Hm & _ & Bc & Bm).
  destruct db as [[[F lk cl] ref]].
  unfold holds, file_of, DBDB._storage in *.
  cbn [DBDB._tree BinaryTree._storage BinaryTree._tree_ref Storage._f
       Storage.f_closed Storage.locked] in *.
  subst cl.
  pose proof (superblock_has_root F Hsz) as H8.
  destruct (store_spec F ref tm Hm depth F lk (extends_refl F) H8)
    as (X & lk' & S & _).
  rewrite S. cbn [Storage._f].
  pose proof (committed_app F X tc H8 Hc) as Hc'.
  assert (Hsz' : Storage.SUPERBLOCK_SIZE <= PyFile.size (F ++ X))
    by (rewrite size_app; lia).
  assert (Open : forall G, Storage.SUPERBLOCK_SIZE <= PyFile.size G ->
                 committed G tc ->
                 exists dbG, connect G = Returns dbG /\ inv dbG tc tc).
  { intros G HG (a & Ha & Ra).
    rewrite (connect_existing G a HG Ha). eexists. split; [reflexivity | ].
    unfold inv, holds, file_of, DBDB._storage.
    cbn [DBDB._tree BinaryTree._storage BinaryTree._tree_ref Storage._f
         Storage.f_closed Storage.locked].
    repeat split; auto. exists a. auto. }
  destruct (Open F Hsz Hc) as (db0 & E0 & I0).
  destruct (Open (F ++ X) Hsz' Hc') as (db1 & E1 & I1).
  exists db0, db1, (entries tc).
  split; [exact E0 | ]. split; [exact E1 | ].
  split; [apply (traverse_root_outcome _ _ _ _ I0); exact Hfuel | ].
  split; [apply (traverse_root_outcome _ _ _ _ I1); exact Hfuel | ].
  intros key.
  now rewrite (get_outcome fuel key db1 tc tc I1 Hfuel),
    (get_outcome fuel key db0 tc tc I0 Hfuel).
Qed.

(** X17, a commit keeps every answer.  When [commit] returns on a
    reachable database, then after [close] and a new [connect] to the file
    the traversal, [get_min], [get], [get_left], [get_right] and [chop]
    answer as they did on the handle before the [commit]. *)
Theorem commit_keeps_answers depth db t fuel :
  reachable db -> holds db t -> (height t <= fuel)%nat ->
  fst (DBDB.commit depth db) = Returns tt ->
  exists db',
    connect (file_of (snd (DBDB.close (snd (DBDB.commit depth db)))))
    = Returns db'
    /\ traverse_root fuel db' = traverse_root fuel db
    /\ fst (DBDB.get_min fuel db') = fst (DBDB.get_min fuel db)
    /\ forall key,
         fst (DBDB.get fuel key db') = fst (DBDB.get fuel key db)
         /\ fst (DBDB.get_left fuel key db')
            = fst (DBDB.get_left fuel key db)
         /\ fst (DBDB.get_right fuel key db')
            = fst (DBDB.get_right fuel key db)
         /\ fst (DBDB.chop fuel key db') = fst (DBDB.chop fuel key db).
Proof.
  intros Hreach Ht Hfuel Hret.
  destruct (reachable_inv db Hreach) as (tc & tm & I).
  assert (Et : t = tm) by (eapply inv_holds; eassumption). subst t.
  destruct (commit_call depth db tc tm I)
    as [(_ & I2 & _) | ([E | E] & _)];
    [ | cbv zeta in E; rewrite E in Hret; discriminate Hret
      | cbv zeta in E; rewrite E in Hret; discriminate Hret].
  cbv zeta in I2.
  destruct (reopen_call _ tm tm I2) as (db' & Ec & I' & _).
  exists db'. split; [exact Ec | ].
  split.
  { rewrite (traverse_root_outcome fuel db tc tm I Hfuel).
    apply (traverse_root_outcome _ _ _ _ I'); exact Hfuel. }
  split.
  { now rewrite (get_min_outcome fuel db' tm tm I' Hfuel),
      (get_min_outcome fuel db tc tm I Hfuel). }
  intros key.
  rewrite (get_outcome fuel key db' tm tm I' Hfuel),
    (get_outcome fuel key db tc tm I Hfuel),
    (get_left_outcome fuel key db' tm tm I' Hfuel),
    (get_left_outcome fuel key db tc tm I Hfuel),
    (get_right_outcome fuel key db' tm tm I' Hfuel),
    (get_right_outcome fuel key db tc tm I Hfuel),
    (chop_outcome fuel key db' tm tm I' Hfuel),
    (chop_outcome fuel key db tc tm I Hfuel).
  auto.
Qed.

(** X18, the lock.  On a reachable database [set] leaves the handle
    holding the lock, whatever its outcome; [commit] releases the lock
    when it returns and holds it when it raises; [close] releases it. *)
Theorem lock_discipline depth db fuel key value :
  reachable db ->
  Storage.locked (DBDB._storage (snd (DBDB.set fuel key value db))) = true
  /\ Storage.locked (DBDB._storage (snd (DBDB.commit depth db)))
     = match fst (DBDB.commit depth db) with
       | Returns _ => false
       | _ => true
       end
  /\ Storage.locked (DBDB._storage (snd (DBDB.close db))) = false.
Proof.
  intros Hreach. destruct (reachable_inv db Hreach) as (tc & tm & I).
  split.
  { destruct (set_call fuel key value db tc tm I) as (tm' & _ & _ & Hl & _).
    exact Hl. }
  split.
  { destruct (Storage.locked (DBDB._storage db)) eqn:Hlk.
    - destruct (commit_call depth db tc tm I)
        as [(E & _ & Hl) | ([E | E] & _ & [Hl | Hl])];
        cbv zeta in E, Hl; rewrite E, Hl; try reflexivity; exact Hlk.
    - now rewrite (commit_unlocked depth db Hreach Hlk). }
  now rewrite close_call.
Qed.

End Commits.

Lemma commit_without_changes_witness :
  (Storage.locked (DBDB._storage (handle (committed_run 10 test4_calls)))
   = false ->
   DBDB.commit 10 (handle (committed_run 10 test4_calls))
   = (Returns tt, handle (committed_run 10 test4_calls)))
  /\ (fst (DBDB.commit 10 (handle (committed_run 10 test4_calls)))
      = Returns tt ->
      DBDB.commit 0
        (snd (DBDB.commit 10 (handle (committed_run 10 test4_calls))))
      = (Returns tt,
         snd (DBDB.commit 10 (handle (committed_run 10 test4_calls))))).
Proof.
  apply (commit_without_changes 10 0
           (handle (committed_run 10 test4_calls))).
  apply (committed_run_reachable 10 test4_calls).
  vm_compute. reflexivity.
Defined.

Lemma unpublished_store_invisible_witness :
  exists db0 db1 all,
    connect (file_of (after_calls 10 test4_calls)) = Returns db0
    /\ connect (Storage._f
                  (snd (BinaryNodeRef.store 10
                          (BinaryTree._tree_ref
                             (DBDB._tree (after_calls 10 test4_calls)))
                          (DBDB._storage (after_calls 10 test4_calls)))))
       = Returns db1
    /\ traverse_root 10 db0 = Returns all
    /\ traverse_root 10 db1 = Returns all
    /\ forall key,
         fst (DBDB.get 10 key db1) = fst (DBDB.get 10 key db0).
Proof.
  apply (unpublished_store_invisible 10 (after_calls 10 test4_calls)
                                     Leaf 10).
  - apply after_calls_reachable.
  - exists 0. split; [vm_compute; reflexivity | constructor].
  - simpl. lia.
Defined.

Lemma commit_keeps_answers_witness :
  exists db',
    connect (file_of (snd (DBDB.close
                             (snd (DBDB.commit 20
                                     (after_calls 10 test5_calls))))))
    = Returns db'
    /\ traverse_root 10 db' = traverse_root 10 (after_calls 10 test5_calls)
    /\ fst (DBDB.get_min 10 db')
       = fst (DBDB.get_min 10 (after_calls 10 test5_calls))
    /\ forall key,
         fst (DBDB.get 10 key db')
         = fst (DBDB.get 10 key (after_calls 10 test5_calls))
         /\ fst (DBDB.get_left 10 key db')
            = fst (DBDB.get_left 10 key (after_calls 10 test5_calls))
         /\ fst (DBDB.get_right 10 key db')
            = fst (DBDB.get_right 10 key (after_calls 10 test5_calls))
         /\ fst (DBDB.chop 10 key db')
            = fst (DBDB.chop 10 key (after_calls 10 test5_calls)).
Proof.
  apply (commit_keeps_answers 20 (after_calls 10 test5_calls)
                              (insert_all Leaf test5_calls) 10).
  - apply after_calls_reachable.
  - apply after_calls_holds. simpl. lia.
  - simpl. lia.
  - vm_compute. reflexivity.
Defined.

Lemma lock_discipline_witness :
  Storage.locked
    (DBDB._storage (snd (DBDB.set 10 16 "big"%string new_db))) = true
  /\ Storage.locked (DBDB._storage (snd (DBDB.commit 10 new_db)))
     = match fst (DBDB.commit 10 new_db) with
       | Returns _ => false
       | _ => true
       end
  /\ Storage.locked (DBDB._storage (snd (DBDB.close new_db))) = false.
Proof.
  apply (lock_discipline 10 new_db 10 16 "big"%string).
  exact new_db_reachable.
Defined.

(** * Further properties: short files and increasing keys *)

(** X19, reading at the end of the file.  On an open file, [Storage.read]
    at an address inside the file or at its end, with fewer than eight
    bytes after it, raises [struct.error], the eight bytes of the length
    being cut short; so do [ValueRef.get] and [BinaryNodeRef.get] on an
    unresolved reference with such an address other than 0. *)
Theorem read_past_end `{Pickle} st address :
  Storage.f_closed st = false ->
  address <= PyFile.size (Storage._f st) ->
  PyFile.size (Storage._f st) < address + 8 ->
  Storage.read address st = Raises struct_error
  /\ (address <> 0 ->
      ValueRef.get (ValueRef.mk None address) st = Raises struct_error
      /\ BinaryNodeRef.get (mkBinaryNodeRef None address) st
         = Raises struct_error).
Proof.
  intros Hcl _ Hsz.
  assert (E : Storage.read address st = Raises struct_error).
  { destruct st as [F lk cl]. cbn [Storage.f_closed] in Hcl. subst cl.
    unfold Storage.read, Storage._read_integer, Storage._bytes_to_integer,
      struct.unpack, PyFile.read_at, PyFile.size, Storage.INTEGER_LENGTH
      in *.
    cbn [Storage._f Storage.f_closed] in *.
    change (N.to_nat 8) with 8%nat.
    replace (Nat.eqb (length (firstn 8 (skipn (N.to_nat address) F))) 8)
      with false; [reflexivity | ].
    symmetry. apply Nat.eqb_neq. rewrite length_firstn, length_skipn. lia. }
  split; [exact E | ].
  intros Ha. apply N.eqb_neq in Ha.
  unfold ValueRef.get, BinaryNodeRef.get.
  cbn [ValueRef._referent ValueRef._address BinaryNodeRef._referent
       BinaryNodeRef._address].
  rewrite Ha, E. split; reflexivity.
Qed.

Lemma read_past_end_witness :
  Storage.read 4090 (Storage.mk (repeat x00 4096) false false)
  = Raises struct_error
  /\ (4090 <> 0 ->
      ValueRef.get (ValueRef.mk None 4090)
                   (Storage.mk (repeat x00 4096) false false)
      = Raises struct_error
      /\ BinaryNodeRef.get (mkBinaryNodeRef None 4090)
                           (Storage.mk (repeat x00 4096) false false)
         = Raises struct_error).
Proof.
  apply (read_past_end (Storage.mk (repeat x00 4096) false false) 4090).
  - reflexivity.
  - vm_compute. discriminate.
  - vm_compute. reflexivity.
Defined.







